(** * Data Sweeper (app.py): a shallow embedding and its specification

    The program is one Streamlit script.  For every uploaded file it
    dispatches on the file extension, loads a pandas DataFrame, shows a
    preview, optionally cleans the frame (four buttons), filters it on one
    column, optionally profiles and charts it, and offers a converted
    download.

    Layout of this development:
    - [Python strings]: [lower], [rfind], [splitext], [replace];
    - [Frames]: cells, series, frames and the pandas operations the script
      calls ([select_dtypes], [drop_duplicates], [fillna], [mean],
      [unique], [isin], ...);
    - [CSV text]: [read_csv] and [to_csv] on unquoted CSV text;
    - [The page]: events, widgets, the script monad and the script itself;
    - the vocabulary of the statements, and the theorems: strings, column
      assignment, the cleaning steps, duplicates, filtering, the loop
      over the uploads, the download, and the CSV round trip.

    Numbers are exact rationals ([Qc]): an int64 or float64 value is
    idealised as the rational it denotes, so the mean is exact.  Strings are
    sequences of 8-bit characters. *)

From Stdlib Require Import String Ascii List ZArith QArith Qcanon Lia Bool Arith.
From Stdlib Require Import DecimalString Decimal DecimalPos DecimalFacts.
From Equations Require Import Equations.
Import ListNotations.

Close Scope Qc_scope.
Close Scope Q_scope.
Open Scope string_scope.
Open Scope list_scope.

(* ===================================================================== *)
(** ** Python strings *)
(* ===================================================================== *)

Definition is_upper (c : ascii) : bool :=
  let n := nat_of_ascii c in (65 <=? n)%nat && (n <=? 90)%nat.

Definition is_lower (c : ascii) : bool :=
  let n := nat_of_ascii c in (97 <=? n)%nat && (n <=? 122)%nat.

Definition is_digit (c : ascii) : bool :=
  let n := nat_of_ascii c in (48 <=? n)%nat && (n <=? 57)%nat.

Definition lower_char (c : ascii) : ascii :=
  if is_upper c then ascii_of_nat (nat_of_ascii c + 32) else c.

(** [str.lower()], on the ASCII letters. *)
Fixpoint lower (s : string) : string :=
  match s with
  | EmptyString => EmptyString
  | String c s' => String (lower_char c) (lower s')
  end.

(** [str.rfind(c)] for a one-character needle: the highest index of [c],
    or [-1].  [i] is the index of the first character of [s]. *)
Fixpoint rfind_from (c : ascii) (i : Z) (s : string) : Z :=
  match s with
  | EmptyString => (-1)%Z
  | String a s' =>
      let r := rfind_from c (i + 1) s' in
      if (0 <=? r)%Z then r
      else if Ascii.eqb a c then i else (-1)%Z
  end.

Definition rfind (c : ascii) (s : string) : Z := rfind_from c 0 s.

(** The slice [p[i:]]. *)
Definition slice_from (i : nat) (p : string) : string :=
  substring i (String.length p - i) p.

(** The slice [p[:i]]. *)
Definition slice_to (i : nat) (p : string) : string :=
  substring 0 i p.

(** The [while filenameIndex < dotIndex] loop of [genericpath._splitext]:
    [true] as soon as a character other than the dot is met. *)
Fixpoint splitext_loop (p : string) (filenameIndex : nat) (steps : nat) : bool :=
  match steps with
  | O => false
  | S k =>
      match String.get filenameIndex p with
      | Some c =>
          if negb (Ascii.eqb c ".") then true
          else splitext_loop p (S filenameIndex) k
      | None => true
      end
  end.

(** [os.path.splitext] (posixpath: [sep = '/'], no [altsep]). *)
Definition splitext (p : string) : string * string :=
  let sepIndex := rfind "/" p in
  let dotIndex := rfind "." p in
  if (sepIndex <? dotIndex)%Z then
    let filenameIndex := Z.to_nat (sepIndex + 1) in
    if splitext_loop p filenameIndex (Z.to_nat dotIndex - filenameIndex) then
      (slice_to (Z.to_nat dotIndex) p, slice_from (Z.to_nat dotIndex) p)
    else (p, EmptyString)
  else (p, EmptyString).

(** [str.replace(old, new)] for a non-empty [old]: a left-to-right scan
    that replaces every non-overlapping occurrence.  [skip] counts the
    characters of the occurrence just replaced that are still to be
    consumed. *)
Fixpoint replace_scan (old new : string) (skip : nat) (s : string) : string :=
  match s with
  | EmptyString => EmptyString
  | String c s' =>
      match skip with
      | S k => replace_scan old new k s'
      | O =>
          if prefix old s
          then new ++ replace_scan old new (String.length old - 1) s'
          else String c (replace_scan old new 0 s')
      end
  end.

(** With an empty [old], Python puts [new] before every character and at
    the end. *)
Fixpoint intersperse_new (new : string) (s : string) : string :=
  match s with
  | EmptyString => new
  | String c s' => new ++ String c (intersperse_new new s')
  end.

Definition replace (s old new : string) : string :=
  match old with
  | EmptyString => intersperse_new new s
  | _ => replace_scan old new 0 s
  end.

(** The character class [[A-Za-z0-9 ]] of the cleaning pattern. *)
Definition in_class (c : ascii) : bool :=
  is_upper c || is_lower c || is_digit c || Ascii.eqb c " ".

(** One match of [[^A-Za-z0-9 ]+] is greedy: it takes the longest run of
    characters outside the class.  [skip_run s] is what is left of [s]
    after such a run. *)
Fixpoint skip_run (s : string) : string :=
  match s with
  | EmptyString => EmptyString
  | String c s' => if in_class c then s else skip_run s'
  end.

(** [re.sub(r'[^A-Za-z0-9 ]+', '', s)]: scan from the left; where a match
    starts, drop the whole run and go on after it; otherwise keep the
    character. *)
Equations? re_sub_special (s : string) : string by wf (String.length s) lt :=
  re_sub_special EmptyString := EmptyString;
  re_sub_special (String c s') :=
    if in_class c then String c (re_sub_special s')
    else re_sub_special (skip_run s').
Proof.
  clear re_sub_special. apply Nat.lt_succ_r.
  induction s' as [|a t IH]; simpl; [lia|].
  destruct (in_class a); simpl; lia.
Qed.

(* ===================================================================== *)
(** ** Frames *)
(* ===================================================================== *)

(** A column label.  [read_csv] yields text labels; [read_excel] keeps a
    numeric header cell as a number. *)
Inductive label : Type :=
| LStr (s : string)
| LInt (z : Z).

(** A cell: a missing value, a number, a string, or a boolean. *)
Inductive cell : Type :=
| NaN
| Num (q : Qc)
| Str (s : string)
| Bool (b : bool).

(** The classes of dtype the script tells apart: ["number"] (int64,
    float64), ["object"], and the rest (here: bool). *)
Inductive dtype : Type :=
| number
| object
| boolean.

Record Series : Type := mkSeries {
  label_of : label;
  dt : dtype;
  values : list cell
}.

(** A DataFrame: its columns, in order.  Row [i] is made of the [i]-th
    value of each column. *)
Definition DataFrame : Type := list Series.

Definition label_eq_dec (a b : label) : {a = b} + {a <> b}.
Proof. decide equality; [apply string_dec | apply Z.eq_dec]. Defined.

Definition cell_eq_dec (a b : cell) : {a = b} + {a <> b}.
Proof.
  decide equality; [apply Qc_eq_dec | apply string_dec | apply bool_dec].
Defined.

Definition dtype_eq_dec (a b : dtype) : {a = b} + {a <> b}.
Proof. decide equality. Defined.

Definition label_eqb (a b : label) : bool :=
  if label_eq_dec a b then true else false.

(** Equality of cells as pandas' hash tables see it: by value, a missing
    value being equal to a missing value. *)
Definition cell_eqb (a b : cell) : bool :=
  if cell_eq_dec a b then true else false.

Definition dtype_eqb (a b : dtype) : bool :=
  if dtype_eq_dec a b then true else false.

Definition row : Type := list cell.

Definition row_eq_dec (a b : row) : {a = b} + {a <> b} :=
  list_eq_dec cell_eq_dec a b.

Definition row_eqb (a b : row) : bool :=
  if row_eq_dec a b then true else false.

(** [df.columns] *)
Definition columns (df : DataFrame) : list label := map label_of df.

(** [len(df)] *)
Definition nrows (df : DataFrame) : nat :=
  match df with
  | [] => 0
  | s :: _ => length (values s)
  end.

(** Truth value of a label, as Python takes it: the empty string and
    zero are false. *)
Definition truthy (l : label) : bool :=
  match l with
  | LStr s => negb (String.eqb s EmptyString)
  | LInt z => negb (Z.eqb z 0)
  end.

(** [Index.any()]: is some element of the index true? *)
Definition index_any (idx : list label) : bool := existsb truthy idx.

(** [df.select_dtypes(include=[d])] *)
Definition select_dtypes (include : dtype) (df : DataFrame) : DataFrame :=
  filter (fun s => dtype_eqb (dt s) include) df.

(** [df[keys]] for a list of labels: the columns carrying each key, in
    the order of the keys. *)
Definition getitem_list (df : DataFrame) (keys : list label) : DataFrame :=
  flat_map (fun k => filter (fun s => label_eqb (label_of s) k) df) keys.

(** [df[key]] for one label ([None]: KeyError). *)
Definition getitem (df : DataFrame) (key : label) : option Series :=
  find (fun s => label_eqb (label_of s) key) df.

(** [df[key] = col]: the column labelled [key] takes the dtype and values
    of [col]; a frame without such a column gets a new last column. *)
Definition setitem (df : DataFrame) (key : label) (col : Series) : DataFrame :=
  let new := mkSeries key (dt col) (values col) in
  if existsb (fun s => label_eqb (label_of s) key) df
  then map (fun s => if label_eqb (label_of s) key then new else s) df
  else df ++ [new].

(** [df[keys] = value] for a frame [value]: pandas pairs the keys with
    the columns of [value] by position and assigns them one by one. *)
Fixpoint setitem_list (df : DataFrame) (keys : list label) (value : DataFrame)
  : DataFrame :=
  match keys, value with
  | k :: keys', col :: value' => setitem_list (setitem df k col) keys' value'
  | _, _ => df
  end.

(** [df.apply(f)]: column by column. *)
Definition apply (f : Series -> Series) (df : DataFrame) : DataFrame :=
  map f df.

Definition is_nan (c : cell) : bool :=
  match c with NaN => true | _ => false end.

(** [df.isnull().sum()]: the number of missing values of each column. *)
Definition isnull_sum (df : DataFrame) : list (label * nat) :=
  map (fun s => (label_of s, length (filter is_nan (values s)))) df.

(** [df.head(n)] *)
Definition head (n : nat) (df : DataFrame) : DataFrame :=
  map (fun s => mkSeries (label_of s) (dt s) (firstn n (values s))) df.

(** *** Lowercase *)

(** [x.str.lower()] on one value: a string is lowercased, anything that
    is not a string comes back missing. *)
Definition str_lower_cell (c : cell) : cell :=
  match c with
  | Str s => Str (lower s)
  | _ => NaN
  end.

Definition is_num (c : cell) : bool :=
  match c with Num _ => true | _ => false end.

Definition is_bool (c : cell) : bool :=
  match c with Bool _ => true | _ => false end.

(** The [.str] accessor checks the values it is given and raises
    AttributeError when the non-missing ones are all numbers or all
    booleans. *)
Definition str_accessor_ok (vals : list cell) : bool :=
  match filter (fun c => negb (is_nan c)) vals with
  | [] => true
  | present => negb (forallb is_num present || forallb is_bool present)
  end.

(** [x.str.lower()] on a column *)
Definition str_lower (x : Series) : Series :=
  mkSeries (label_of x) object (map str_lower_cell (values x)).

(** *** Missing values *)

(** The sum and the count of the numbers of a column, missing values
    skipped. *)
Fixpoint sum_count (vals : list cell) : Qc * nat :=
  match vals with
  | [] => (Q2Qc 0, 0%nat)
  | Num q :: vs => let '(s, n) := sum_count vs in ((q + s)%Qc, S n)
  | _ :: vs => sum_count vs
  end.

(** [Series.mean()]: the mean of the values present; [None] stands for
    the NaN that pandas returns when no value is present. *)
Definition mean (vals : list cell) : option Qc :=
  let '(s, n) := sum_count vals in
  match n with
  | O => None
  | S _ => Some (s / Q2Qc (inject_Z (Z.of_nat n)))%Qc
  end.

(** [df.mean()]: one mean per column, indexed by the column's label. *)
Definition frame_mean (df : DataFrame) : list (label * option Qc) :=
  map (fun s => (label_of s, mean (values s))) df.

Definition fill_cell (m : Qc) (c : cell) : cell :=
  match c with
  | NaN => Num m
  | _ => c
  end.

Fixpoint lookup_mean (k : label) (ms : list (label * option Qc)) : option Qc :=
  match ms with
  | [] => None
  | (k', m) :: ms' => if label_eqb k' k then m else lookup_mean k ms'
  end.

(** [df.fillna(ms)] for a series [ms] of fill values indexed by label: a
    column is filled with the value found under its label; a fill value
    that is itself NaN fills nothing. *)
Definition fillna (df : DataFrame) (ms : list (label * option Qc)) : DataFrame :=
  map (fun s =>
         match lookup_mean (label_of s) ms with
         | Some m => mkSeries (label_of s) (dt s) (map (fill_cell m) (values s))
         | None => s
         end) df.

(** *** Special characters *)

(** [.replace(r'[^A-Za-z0-9 ]+', '', regex=True)] on one value: only
    strings are rewritten. *)
Definition replace_regex_cell (c : cell) : cell :=
  match c with
  | Str s => Str (re_sub_special s)
  | _ => c
  end.

Definition replace_regex (df : DataFrame) : DataFrame :=
  map (fun s => mkSeries (label_of s) (dt s) (map replace_regex_cell (values s))) df.

(** *** Rows *)

(** Row [i] of a frame. *)
Definition row_at (df : DataFrame) (i : nat) : row :=
  map (fun s => nth i (values s) NaN) df.

Definition rows (df : DataFrame) : list row :=
  map (row_at df) (seq 0 (nrows df)).

(** [df.duplicated()]: rows are visited in order and looked up among the
    rows seen so far; a row found there is marked. *)
Fixpoint duplicated_scan (seen : list row) (rs : list row) : list bool :=
  match rs with
  | [] => []
  | r :: rs' =>
      existsb (row_eqb r) seen :: duplicated_scan (r :: seen) rs'
  end.

Definition duplicated (df : DataFrame) : list bool :=
  duplicated_scan [] (rows df).

(** Boolean indexing of one column: the values whose mask bit is set. *)
Fixpoint mask_select (mask : list bool) (vals : list cell) : list cell :=
  match mask, vals with
  | b :: mask', v :: vals' =>
      if b then v :: mask_select mask' vals' else mask_select mask' vals'
  | _, _ => []
  end.

(** [df[mask]] *)
Definition getitem_mask (df : DataFrame) (mask : list bool) : DataFrame :=
  map (fun s => mkSeries (label_of s) (dt s) (mask_select mask (values s))) df.

(** [df.drop_duplicates()] keeps the rows that [duplicated] leaves
    unmarked. *)
Definition drop_duplicates (df : DataFrame) : DataFrame :=
  getitem_mask df (map negb (duplicated df)).

(** [Series.unique()]: the distinct values in order of first appearance. *)
Fixpoint unique_scan (seen : list cell) (vals : list cell) : list cell :=
  match vals with
  | [] => []
  | v :: vals' =>
      if existsb (cell_eqb v) seen then unique_scan seen vals'
      else v :: unique_scan (v :: seen) vals'
  end.

Definition unique (s : Series) : list cell := unique_scan [] (values s).

(** [Series.isin(selected)] *)
Definition isin (s : Series) (selected : list cell) : list bool :=
  map (fun v => existsb (cell_eqb v) selected) (values s).

(** *** The cleaning and filtering steps of the script *)

(** Lines 55-56: lowercase the text columns.  [None] stands for the
    AttributeError of the [.str] accessor, raised before anything is
    assigned. *)
Definition lowercase_text (df : DataFrame) : option DataFrame :=
  let text_cols := columns (select_dtypes object df) in
  let sub := getitem_list df text_cols in
  if forallb (fun x => str_accessor_ok (values x)) sub
  then Some (setitem_list df text_cols (apply str_lower sub))
  else None.

(** Lines 61-66: fill the missing numeric values.  The boolean tells
    which branch of the [numeric_cols.any()] test was taken: [true] for
    the filling branch, [false] for the warning. *)
Definition fill_missing (df : DataFrame) : DataFrame * bool :=
  let numeric_cols := columns (select_dtypes number df) in
  if index_any numeric_cols then
    let sub := getitem_list df numeric_cols in
    (setitem_list df numeric_cols (fillna sub (frame_mean sub)), true)
  else (df, false).

(** Lines 69-70: strip the special characters of the text columns. *)
Definition strip_special (df : DataFrame) : DataFrame :=
  let text_cols := columns (select_dtypes object df) in
  setitem_list df text_cols (replace_regex (getitem_list df text_cols)).

(** Line 78: [df[df[selected_col].isin(selected_vals)]] ([None]:
    KeyError). *)
Definition filter_isin (df : DataFrame) (selected_col : label)
  (selected_vals : list cell) : option DataFrame :=
  match getitem df selected_col with
  | Some s => Some (getitem_mask df (isin s selected_vals))
  | None => None
  end.

(* ===================================================================== *)
(** ** CSV text *)
(* ===================================================================== *)

(** [read_csv] is modelled on plain CSV text: lines ended by a line feed,
    fields separated by commas and written without quotes, a header of
    distinct non-empty names, no row longer than the header, numbers in
    plain decimal notation.  On such text the model gives the frame
    pandas builds with its default options; [None] stands for a parser
    error and for text outside this fragment. *)

Definition LF : ascii := ascii_of_nat 10.

(** Cut [s] at every [sep]; [acc] holds the current field. *)
Fixpoint split_acc (sep : ascii) (acc : string) (s : string) : list string :=
  match s with
  | EmptyString => [acc]
  | String c s' =>
      if Ascii.eqb c sep then acc :: split_acc sep EmptyString s'
      else split_acc sep (acc ++ String c EmptyString) s'
  end.

Definition split (sep : ascii) (s : string) : list string :=
  split_acc sep EmptyString s.

(** The strings pandas reads as a missing value. *)
Definition na_values : list string :=
  [""; "#N/A"; "#N/A N/A"; "#NA"; "-1.#IND"; "-1.#QNAN"; "-NaN"; "-nan";
   "1.#IND"; "1.#QNAN"; "<NA>"; "N/A"; "NA"; "NULL"; "NaN"; "None";
   "n/a"; "nan"; "null"].

Definition is_na (f : string) : bool := existsb (String.eqb f) na_values.

(** The value of a run of decimal digits, if it is one ([acc]: the value
    of the digits read so far). *)
Fixpoint digits_value (acc : Z) (s : string) : option Z :=
  match s with
  | EmptyString => Some acc
  | String c s' =>
      if is_digit c
      then digits_value (10 * acc + Z.of_nat (nat_of_ascii c - 48)) s'
      else None
  end.

Definition unsigned_number (s : string) : option Qc :=
  match split "." s with
  | [i] =>
      match i, digits_value 0 i with
      | String _ _, Some n => Some (Q2Qc (inject_Z n))
      | _, _ => None
      end
  | [i; f] =>
      match i, f, digits_value 0 i, digits_value 0 f with
      | String _ _, String _ _, Some n, Some m =>
          Some (Q2Qc (inject_Z n
                      + inject_Z m / inject_Z (10 ^ Z.of_nat (String.length f))))
      | _, _, _, _ => None
      end
  | _ => None
  end.

(** A field read as a number: an optional sign, digits, and optionally a
    point and more digits. *)
Definition parse_number (s : string) : option Qc :=
  match s with
  | String "-" s' => option_map Qcopp (unsigned_number s')
  | String "+" s' => unsigned_number s'
  | _ => unsigned_number s
  end.

Definition parse_bool (s : string) : option bool :=
  if existsb (String.eqb s) ["True"; "TRUE"; "true"] then Some true
  else if existsb (String.eqb s) ["False"; "FALSE"; "false"] then Some false
  else None.

Definition is_some {A : Type} (o : option A) : bool :=
  match o with Some _ => true | None => false end.

(** Type inference for one column, from its fields: an object column
    when there is no row; numbers if every field present is a number;
    booleans if every one is a boolean literal (an object column when
    some field is missing); text otherwise. *)
Definition infer_column (l : label) (fields : list string) : Series :=
  let present := filter (fun f => negb (is_na f)) fields in
  if (length fields =? 0)%nat then mkSeries l object []
  else if forallb (fun f => is_some (parse_number f)) present then
    mkSeries l number
      (map (fun f => match parse_number f with
                     | Some q => if is_na f then NaN else Num q
                     | None => NaN
                     end) fields)
  else if forallb (fun f => is_some (parse_bool f)) present then
    mkSeries l (if forallb (fun f => negb (is_na f)) fields then boolean else object)
      (map (fun f => match parse_bool f with
                     | Some b => if is_na f then NaN else Bool b
                     | None => NaN
                     end) fields)
  else
    mkSeries l object (map (fun f => if is_na f then NaN else Str f) fields).

(** Field [j] of every record; a record that is too short reads as
    missing there. *)
Definition field_column (records : list (list string)) (j : nat) : list string :=
  map (fun r => nth j r EmptyString) records.

Fixpoint distinct (l : list string) : bool :=
  match l with
  | [] => true
  | x :: l' => negb (existsb (String.eqb x) l') && distinct l'
  end.

Definition read_csv (text : string) : option DataFrame :=
  let lines := filter (fun l => negb (String.eqb l EmptyString)) (split LF text) in
  match map (split ",") lines with
  | [] => None
  | header :: records =>
      if distinct header
         && forallb (fun h => negb (String.eqb h EmptyString)) header
         && forallb (fun r => (length r <=? length header)%nat) records
      then Some (map (fun j => infer_column (LStr (nth j header EmptyString))
                                            (field_column records j))
                     (seq 0 (length header)))
      else None
  end.

(** *** Writing CSV text *)

(** [to_csv(index=False)] is modelled on the frames it writes without
    quoting: names and strings free of commas, double quotes and line
    breaks, whole numbers.  A number of an int64 column is written as its
    digits, one of a float64 column with [.0] after them; the dtype
    [number] does not tell the two apart, so the writer takes
    [float64], the labels of the float64 columns.  [None] stands for a
    frame outside this fragment. *)

Definition CR : ascii := ascii_of_nat 13.
Definition QUOTE : ascii := ascii_of_nat 34.

Definition plain_char (c : ascii) : bool :=
  negb (Ascii.eqb c "," || Ascii.eqb c QUOTE || Ascii.eqb c LF || Ascii.eqb c CR).

Fixpoint plain (s : string) : bool :=
  match s with
  | EmptyString => true
  | String c s' => plain_char c && plain s'
  end.

(** The fields of one line, separated by [sep]. *)
Fixpoint join (sep : ascii) (fields : list string) : string :=
  match fields with
  | [] => EmptyString
  | [f] => f
  | f :: fs => f ++ String sep (join sep fs)
  end.

Definition Z_text (z : Z) : string := NilZero.string_of_int (Z.to_int z).

Definition cell_text (as_float : bool) (c : cell) : option string :=
  match c with
  | NaN => Some EmptyString
  | Num q =>
      if (Qden q =? 1)%positive
      then Some (Z_text (Qnum q) ++ (if as_float then ".0" else ""))%string
      else None
  | Str s => if plain s then Some s else None
  | Bool b => Some (if b then "True" else "False")
  end.

Definition label_text (l : label) : option string :=
  match l with
  | LStr s => if plain s then Some s else None
  | LInt z => Some (Z_text z)
  end.

(** All the values of a list of options, if none is missing. *)
Fixpoint sequence {A : Type} (l : list (option A)) : option (list A) :=
  match l with
  | [] => Some []
  | Some a :: l' => option_map (cons a) (sequence l')
  | None :: _ => None
  end.

Definition column_texts (float64 : label -> bool) (s : Series)
  : option (list string) :=
  sequence (map (cell_text (float64 (label_of s))) (values s)).

(** One line per record, each ended by a line feed. *)
Fixpoint write_lines (records : list (list string)) : string :=
  match records with
  | [] => EmptyString
  | r :: records' => join "," r ++ String LF (write_lines records')
  end.

Definition to_csv_plain (float64 : label -> bool) (df : DataFrame)
  : option string :=
  match df, sequence (map label_text (columns df)),
        sequence (map (column_texts float64) df) with
  | _ :: _, Some header, Some cols =>
      let records :=
        map (fun i => map (fun col => nth i col EmptyString) cols)
            (seq 0 (nrows df)) in
      (* a line made of one empty field would be written quoted *)
      if forallb (fun r => negb (String.eqb (join "," r) EmptyString))
                 (header :: records)
      then Some (write_lines (header :: records))
      else None
  | _, _, _ => None
  end.

(* ===================================================================== *)
(** ** The page: uploads, widgets, output and the script *)
(* ===================================================================== *)

(** An uploaded file, as [st.file_uploader] hands it to the script. *)
Record UploadedFile : Type := mkUploadedFile {
  name : string;
  size : N;
  content : string
}.

(** What the script puts on the page, in order: what it writes, and its
    widgets with the arguments of the call. *)
Inductive event : Type :=
| st_error (msg : string)
| st_write (msg : string)
| st_write_size (bytes : N)          (* the "File Size" line, [size/1024] in KB *)
| st_dataframe (df : DataFrame)
| st_subheader (msg : string)
| st_write_describe (df : DataFrame) (* [st.write(df.describe())] *)
| st_table (counts : list (label * nat))
| st_success (msg : string)
| st_warning (msg : string)
| st_html (html : string)
| st_bar_chart (df : DataFrame)
| st_download_button (caption : string) (data : string)
                     (file_name : string) (mime : string)
| st_checkbox (text : string)
| st_button (text : string)
| st_selectbox (text : string) (options : list label)
| st_multiselect (text : string) (options default : list cell)
| st_radio (text : string) (options : list string) (key : string).

(** The exceptions that end a run of the script.  The last two are
    Streamlit's: a default value that is not among the options, and a
    widget whose identity another widget of the page already has
    (DuplicateWidgetID in older versions). *)
Inductive exn : Type :=
| ParserError
| AttributeError
| KeyError
| StreamlitAPIException
| StreamlitDuplicateElementId.

(** The state of the widgets in one run: what each widget call returns,
    given its label (and options).  It stands for the user's clicks and
    choices. *)
Record Widgets : Type := mkWidgets {
  checkbox : string -> bool;
  button : string -> bool;
  selectbox : string -> list label -> option label;
  multiselect : string -> list cell -> list cell -> list cell;
  radio : string -> list string -> string -> string
}.

(** The library calls whose result the script only passes on, as they
    answer during one run: the Excel reader, the two writers (what they
    put into the buffer), the report generator (the HTML it produces) and
    the name of the temporary file. *)
Record Env : Type := mkEnv {
  read_excel : string -> option DataFrame;
  to_csv : DataFrame -> string;
  to_excel : DataFrame -> string;
  profile_html : DataFrame -> string;
  temp_filename : string
}.

(** The same libraries from one run to the next.  The CSV writer is a
    function of the frame.  The Excel writer is not: the workbook it
    writes carries the time of its creation, so what it puts into the
    buffer depends on the clock as well. *)
Record Library : Type := mkLibrary {
  lib_read_excel : string -> option DataFrame;
  lib_to_csv : DataFrame -> string;
  lib_to_excel : N -> DataFrame -> string;
  lib_profile_html : DataFrame -> string
}.

(** The library calls of a run that happens at time [now] and is given
    the temporary file [tmp]. *)
Definition env_at (lib : Library) (now : N) (tmp : string) : Env :=
  mkEnv (lib_read_excel lib) (lib_to_csv lib) (lib_to_excel lib now)
        (lib_profile_html lib) tmp.

(** [io.BytesIO]: the bytes written and the stream position. *)
Record BytesIO : Type := mkBytesIO {
  getvalue : string;
  pos : nat
}.

Definition BytesIO_new : BytesIO := mkBytesIO EmptyString 0.

(** [b.write(data)] overwrites from the position on and moves it. *)
Definition write (b : BytesIO) (data : string) : BytesIO :=
  mkBytesIO (slice_to (pos b) (getvalue b) ++ data
             ++ slice_from (pos b + String.length data) (getvalue b))
            (pos b + String.length data).

Definition seek (b : BytesIO) (p : nat) : BytesIO :=
  mkBytesIO (getvalue b) p.

(** The variables of one pass of the loop body: [file.name] (the name
    of whatever [file] is bound to), [file_ext] and [df]. *)
Record Locals : Type := mkLocals {
  file_name : string;
  file_ext : string;
  df : DataFrame
}.

(** A piece of script: it reads and updates the variables, writes to the
    page, and either goes on with a value or raises. *)
Inductive result (A : Type) : Type :=
| Ok (a : A) (l : Locals)
| Raised (e : exn).
Arguments Ok {A} a l.
Arguments Raised {A} e.

Definition Script (A : Type) : Type := Locals -> list event * result A.

Definition ret {A : Type} (a : A) : Script A := fun l => ([], Ok a l).

Definition bind {A B : Type} (m : Script A) (k : A -> Script B) : Script B :=
  fun l =>
    match m l with
    | (out, Ok a l') => let '(out', r) := k a l' in (out ++ out', r)
    | (out, Raised e) => (out, Raised e)
    end.

Declare Scope script_scope.
Delimit Scope script_scope with script.
Notation "x <- m ;; k" := (bind m (fun x => k))
  (at level 61, m at next level, right associativity) : script_scope.
Notation "m ;; k" := (bind m (fun _ => k))
  (at level 61, right associativity) : script_scope.
Open Scope script_scope.

Definition emit (e : event) : Script unit := fun l => ([e], Ok tt l).

Definition raise {A : Type} (e : exn) : Script A := fun _ => ([], Raised e).

Definition get : Script Locals := fun l => ([], Ok l l).

Definition set_df (d : DataFrame) : Script unit :=
  fun l => ([], Ok tt (mkLocals (file_name l) (file_ext l) d)).

(** [with open(temp_filename, ...) as file]: from here on [file] is the
    temporary file, and [file.name] its path. *)
Definition rebind_file (path : string) : Script unit :=
  fun l => ([], Ok tt (mkLocals path (file_ext l) (df l))).

Definition when (b : bool) (m : Script unit) : Script unit :=
  if b then m else ret tt.

(** *** Widgets on the page *)

Definition Series_eq_dec (a b : Series) : {a = b} + {a <> b}.
Proof.
  decide equality;
    [apply (list_eq_dec cell_eq_dec) | apply dtype_eq_dec | apply label_eq_dec].
Defined.

Definition event_eq_dec (a b : event) : {a = b} + {a <> b}.
Proof.
  decide equality;
    try apply string_dec; try apply N.eq_dec;
    try apply (list_eq_dec Series_eq_dec);
    try apply (list_eq_dec cell_eq_dec);
    try apply (list_eq_dec label_eq_dec);
    try apply (list_eq_dec string_dec).
  apply list_eq_dec. intros [l1 n1] [l2 n2].
  destruct (label_eq_dec l1 l2) as [->|Hl]; [|right; congruence].
  destruct (Nat.eq_dec n1 n2) as [->|Hn]; [left; reflexivity | right; congruence].
Defined.

Definition event_eqb (a b : event) : bool :=
  if event_eq_dec a b then true else false.

Definition is_widget (e : event) : bool :=
  match e with
  | st_checkbox _ | st_button _ | st_selectbox _ _ | st_multiselect _ _ _
  | st_radio _ _ _ | st_download_button _ _ _ _ => true
  | _ => false
  end.

(** Streamlit gives a widget an identity made of its kind and of the
    arguments of the call (the key, when there is one).  A call whose
    identity a widget of the page already has raises. *)
Definition clash (page : list event) (e : event) : bool :=
  is_widget e && existsb (event_eqb e) page.

(** A piece of script is described by what it writes on a page of its own
    ([Script]).  [put page out] is what gets on a page that holds [page]
    already: the elements of [out] up to the first widget call that
    raises, and whether there was one. *)
Fixpoint put (page out : list event) : list event * bool :=
  match out with
  | [] => ([], false)
  | e :: out' =>
      if clash page e then ([], true)
      else let '(shown, stopped) := put (page ++ [e]) out' in
           (e :: shown, stopped)
  end.

(** [st.multiselect] looks every default value up among the options and
    raises when one is not found.  Options and default are both
    [df[col].unique()]: of a float64 column Streamlit gets float objects
    made anew at each access, and a NaN is equal to no float, itself
    included; in a column of another dtype a missing value is one object,
    found as itself. *)
Definition default_in_options (col : Series) : bool :=
  negb (dtype_eqb (dt col) number && existsb is_nan (unique col)).

(** How an f-string shows a label. *)
Definition label_str (l : label) : string :=
  match l with
  | LStr s => s
  | LInt z => NilZero.string_of_int (Z.to_int z)
  end.

Section Body.

Variable w : Widgets.
Variable env : Env.

(** A widget call puts the widget on the page and returns what the user
    has set it to. *)
Definition ask_checkbox (text : string) : Script bool :=
  emit (st_checkbox text) ;; ret (checkbox w text).

Definition ask_button (text : string) : Script bool :=
  emit (st_button text) ;; ret (button w text).

Definition ask_selectbox (text : string) (options : list label)
  : Script (option label) :=
  emit (st_selectbox text options) ;; ret (selectbox w text options).

Definition ask_multiselect (text : string) (options default : list cell)
  : Script (list cell) :=
  emit (st_multiselect text options default) ;;
  ret (multiselect w text options default).

Definition ask_radio (text : string) (options : list string) (key : string)
  : Script string :=
  emit (st_radio text options key) ;; ret (radio w text options key).

(** Lines 50-52 *)
Definition remove_duplicates_button : Script unit :=
  l <- get ;;
  pressed <- ask_button ("Remove Duplicates from " ++ file_name l) ;;
  when pressed
    (set_df (drop_duplicates (df l)) ;;
     emit (st_success "✅ Duplicates Removed!")).

(** Lines 54-57 *)
Definition lowercase_button : Script unit :=
  l <- get ;;
  pressed <- ask_button ("Convert Text Columns to Lowercase for " ++ file_name l) ;;
  when pressed
    match lowercase_text (df l) with
    | Some d =>
        set_df d ;;
        emit (st_success "✅ Text Columns Converted to Lowercase!")
    | None => raise AttributeError
    end.

(** Lines 60-66 *)
Definition fill_missing_button : Script unit :=
  l <- get ;;
  pressed <- ask_button ("Fill Missing Values for " ++ file_name l) ;;
  when pressed
    match fill_missing (df l) with
    | (d, true) =>
        set_df d ;;
        emit (st_success "✅ Missing Values Filled!")
    | (_, false) =>
        emit (st_warning "⚠️ No numeric columns found for missing value filling.")
    end.

(** Lines 68-71 *)
Definition strip_special_button : Script unit :=
  l <- get ;;
  pressed <- ask_button ("Remove Special Characters from " ++ file_name l) ;;
  when pressed
    (set_df (strip_special (df l)) ;;
     emit (st_success "✅ Special Characters Removed!")).

(** Lines 74-78 *)
Definition filter_step : Script unit :=
  emit (st_subheader "📌 Filter Data") ;;
  l <- get ;;
  selected <- ask_selectbox ("Select Column to Filter " ++ file_name l)
                            (columns (df l)) ;;
  match selected with
  | None => raise KeyError
  | Some selected_col =>
      match getitem (df l) selected_col with
      | None => raise KeyError
      | Some col =>
          let unique_vals := unique col in
          if default_in_options col then
            selected_vals <-
              ask_multiselect ("Choose values from " ++ label_str selected_col)
                              unique_vals unique_vals ;;
            match filter_isin (df l) selected_col selected_vals with
            | Some d => set_df d
            | None => raise KeyError
            end
          else raise StreamlitAPIException
      end
  end.

(** Lines 83-95 *)
Definition report_step : Script unit :=
  emit (st_subheader "📋 AI-Powered Data Report") ;;
  l <- get ;;
  ticked <- ask_checkbox ("Generate AI Report for " ++ file_name l) ;;
  when ticked
    (let report_html := profile_html env (df l) in
     rebind_file (temp_filename env) ;;
     emit (st_html report_html)).

(** Lines 98-104 *)
Definition visualization_step : Script unit :=
  emit (st_subheader "📊 Data Visualizations") ;;
  l <- get ;;
  ticked <- ask_checkbox ("Show Visualization for " ++ file_name l) ;;
  when ticked
    (let numeric_cols := select_dtypes number (df l) in
     if (1 <? length numeric_cols)%nat
     then emit (st_bar_chart (firstn 2 numeric_cols))
     else emit (st_warning "⚠️ Not enough numeric columns to generate a bar chart.")).

(** Lines 110-127: the body of [if st.button("Convert")]. *)
Definition convert (conversion_type : string) : Script unit :=
  l <- get ;;
  let buffer := BytesIO_new in
  let '(buffer, out_name, mime_type) :=
    if String.eqb conversion_type "CSV" then
      (write buffer (to_csv env (df l)),
       replace (file_name l) (file_ext l) ".csv",
       "text/csv")
    else
      (write buffer (to_excel env (df l)),
       replace (file_name l) (file_ext l) ".xlsx",
       "application/vnd.openxmlformats-officedocument.spreadsheetml.sheet")
  in
  let buffer := seek buffer 0 in
  emit (st_download_button ("⬇️ Download " ++ out_name)
                           (getvalue buffer) out_name mime_type).

(** Lines 108-127.  The radio button has the key [file.name]; the button
    has the same label, and no key, in the pass of every file. *)
Definition convert_step : Script unit :=
  emit (st_subheader "🔄 Convert & Download") ;;
  l <- get ;;
  conversion_type <-
    ask_radio ("Convert " ++ file_name l ++ " to:") ["CSV"; "Excel"] (file_name l) ;;
  pressed <- ask_button "Convert" ;;
  when pressed (convert conversion_type).

(** Lines 30-36 *)
Definition preview_step (file : UploadedFile) : Script unit :=
  l <- get ;;
  emit (st_write ("**File Name:** " ++ file_name l)) ;;
  emit (st_write_size (size file)) ;;
  emit (st_write "**📈 Data Preview (First 7 Rows):**") ;;
  emit (st_dataframe (head 7 (df l))).

(** Lines 39-43 *)
Definition summary_step : Script unit :=
  emit (st_subheader "🗒️ Data Summary") ;;
  l <- get ;;
  ticked <- ask_checkbox ("Show Summary for " ++ file_name l) ;;
  when ticked
    (emit (st_write_describe (df l)) ;;
     emit (st_write "Missing Values Count:") ;;
     emit (st_table (isnull_sum (df l)))).

(** Lines 46-71 *)
Definition clean_step : Script unit :=
  l <- get ;;
  ticked <- ask_checkbox ("🧹 Clean & Transform Data for " ++ file_name l) ;;
  when ticked
    (remove_duplicates_button ;;
     lowercase_button ;;
     fill_missing_button ;;
     strip_special_button).

(** Lines 30-127: the loop body once [df] is loaded. *)
Definition body (file : UploadedFile) : Script unit :=
  preview_step file ;;
  summary_step ;;
  clean_step ;;
  filter_step ;;
  report_step ;;
  visualization_step ;;
  convert_step.

(** Lines 20-28: the dispatch on the extension.  [inl msg]: the file is
    refused with [msg]; [inr None]: the reader raised. *)
Definition load (file : UploadedFile) : string + option DataFrame :=
  let ext := lower (snd (splitext (name file))) in
  if String.eqb ext ".csv" then inr (read_csv (content file))
  else if String.eqb ext ".xlsx" then inr (read_excel env (content file))
  else inl ("❌ Unsupported file format: " ++ ext)%string.

(** One pass of the loop, lines 20-127, on a page that holds [page]
    already: what it writes, and the exception that ended it if one
    did. *)
Definition process_file (page : list event) (file : UploadedFile)
  : list event * option exn :=
  match load file with
  | inl msg => ([st_error msg], None)                      (* [continue] *)
  | inr None => ([], Some ParserError)
  | inr (Some d) =>
      let file_ext := lower (snd (splitext (name file))) in
      let '(out, r) := body file (mkLocals (name file) file_ext d) in
      match put page out with
      | (shown, true) => (shown, Some StreamlitDuplicateElementId)
      | (shown, false) =>
          (shown, match r with Ok _ _ => None | Raised e => Some e end)
      end
  end.

(** Lines 19-127: the loop over the uploads stops at the first
    exception; every pass writes on the page the passes before it have
    left. *)
Fixpoint for_each_file (page : list event) (uploaded_files : list UploadedFile)
  : list event * option exn :=
  match uploaded_files with
  | [] => ([], None)
  | file :: rest =>
      match process_file page file with
      | (out, Some e) => (out, Some e)
      | (out, None) =>
          let '(out', r) := for_each_file (page ++ out) rest in (out ++ out', r)
      end
  end.

(** Lines 18-129: the whole run.  What lines 10-16 have put on the page
    (a title, a text, the file uploader) has the identity of no widget of
    the loop, so the loop starts on a page that is empty for it. *)
Definition main (uploaded_files : list UploadedFile) : list event * option exn :=
  match for_each_file [] uploaded_files with
  | (out, None) => (out ++ [st_success "🎉 All Files Processed!"], None)
  | (out, Some e) => (out, Some e)
  end.

End Body.

(* ===================================================================== *)
(** ** Well-formed frames and the vocabulary of the statements *)
(* ===================================================================== *)

Fixpoint distinct_labels (ls : list label) : bool :=
  match ls with
  | [] => true
  | l :: ls' => negb (existsb (label_eqb l) ls') && distinct_labels ls'
  end.

(** A frame is well formed when its columns are unique by label and all
    have the same number of values. *)
Definition well_formed (df : DataFrame) : bool :=
  distinct_labels (columns df)
  && forallb (fun s => (length (values s) =? nrows df)%nat) df.

Definition wf_frame (df : DataFrame) : Prop := well_formed df = true.

(** The characters of a cell: those of its string, if it holds one. *)
Definition cell_chars (c : cell) : list ascii :=
  match c with
  | Str s => list_ascii_of_string s
  | _ => []
  end.

(** The characters of [s] that are in the class, in order. *)
Fixpoint keep_class (s : string) : string :=
  match s with
  | EmptyString => EmptyString
  | String c s' => if in_class c then String c (keep_class s') else keep_class s'
  end.

(** A column-wise update: the columns that satisfy [p] become [f] of
    themselves, the others stay. *)
Definition update_where (p : Series -> bool) (f : Series -> Series)
  (df : DataFrame) : DataFrame :=
  map (fun s => if p s then f s else s) df.

Definition has_dtype (d : dtype) (s : Series) : bool := dtype_eqb (dt s) d.

(** What [fillna] with the column's own mean does to one column. *)
Definition fill_with_mean (s : Series) : Series :=
  match mean (values s) with
  | Some m => mkSeries (label_of s) (dt s) (map (fill_cell m) (values s))
  | None => s
  end.

Definition strip_column (s : Series) : Series :=
  mkSeries (label_of s) (dt s) (map replace_regex_cell (values s)).

(** [frame_touch d R df df']: [df'] has the columns of [df], in the same
    order, with the same labels and dtypes; a column whose dtype is not
    [d] is the same in both; in a column of dtype [d] the values
    correspond position by position (the rows are as many and in the same
    order), each pair being related by [R]. *)
Definition frame_touch (d : dtype) (R : cell -> cell -> Prop)
  (df df' : DataFrame) : Prop :=
  Forall2 (fun s s' =>
             label_of s' = label_of s /\ dt s' = dt s
             /\ length (values s') = length (values s)
             /\ (dt s = d -> Forall2 R (values s) (values s'))
             /\ (dt s <> d -> s' = s)) df df'.

(** The rows of [rs] whose mask bit is set. *)
Fixpoint select_rows (mask : list bool) (rs : list row) : list row :=
  match mask, rs with
  | b :: mask', r :: rs' =>
      if b then r :: select_rows mask' rs' else select_rows mask' rs'
  | _, _ => []
  end.

(** The sequential composition of two runs: the second one happens only
    if the first one did not raise; [k out] is the second run, given what
    the first one has put on the page. *)
Definition and_then (a : list event * option exn)
  (k : list event -> list event * option exn) : list event * option exn :=
  match a with
  | (out, Some e) => (out, Some e)
  | (out, None) => let '(out', r) := k out in (out ++ out', r)
  end.

(** What the cleaning pattern does to one cell, in the words of the
    specification: a string keeps its characters of the class, any other
    value is left alone. *)
Definition keep_class_cell (c : cell) : cell :=
  match c with
  | Str s => Str (keep_class s)
  | _ => c
  end.

Definition keep_class_column (s : Series) : Series :=
  mkSeries (label_of s) (dt s) (map keep_class_cell (values s)).

(** Fill-missing as the specification words it: it warns and alters
    nothing if and only if there is no numeric column; otherwise it
    reports success and no numeric column has a missing entry left. *)
Definition fill_missing_as_specified (df : DataFrame) : Prop :=
  (fill_missing df = (df, false) <-> select_dtypes number df = [])
  /\ (select_dtypes number df <> [] ->
      snd (fill_missing df) = true
      /\ forall s, In s (fst (fill_missing df)) -> dt s = number ->
                   ~ In NaN (values s)).

Definition is_notice (e : event) : Prop :=
  match e with
  | st_success _ | st_warning _ => True
  | _ => False
  end.

(** *** Frames that come back from CSV text as they were *)

Definition is_letter (c : ascii) : bool := is_upper c || is_lower c.

(** A string that no reader option takes for a number, a boolean or a
    missing value: it starts with a letter and is none of the words
    below, in any letter case. *)
Definition wordlike (s : string) : bool :=
  match s with
  | EmptyString => false
  | String c _ =>
      is_letter c
      && negb (existsb (String.eqb (lower s))
                       ["inf"; "infinity"; "nan"; "true"; "false"])
      && negb (is_na s)
  end.

Definition safe_number (c : cell) : bool :=
  match c with
  | NaN => true
  | Num q => (Qden q =? 1)%positive && (Z.abs (Qnum q) <? 10 ^ 15)%Z
  | _ => false
  end.

Definition safe_text (c : cell) : bool :=
  match c with
  | NaN => true
  | Str s => plain s && negb (is_na s)
  | _ => false
  end.

Definition wordlike_cell (c : cell) : bool :=
  match c with
  | Str s => wordlike s
  | _ => false
  end.

(** A numeric column of missing values and whole numbers; a boolean
    column without missing value; a text column of missing values and
    strings that are written as they are and not read as missing, one of
    them at least being [wordlike]. *)
Definition safe_column (s : Series) : bool :=
  match dt s with
  | number => forallb safe_number (values s)
  | boolean => forallb is_bool (values s)
  | object => forallb safe_text (values s) && existsb wordlike_cell (values s)
  end.

Definition safe_label (l : label) : bool :=
  match l with
  | LStr s => plain s && negb (String.eqb s EmptyString)
  | LInt _ => false
  end.

(** The frames of the round-trip theorem: well formed, with at least one
    column and one row, safe labels and columns, and no missing value
    when there is only one column. *)
Definition csv_safe (df : DataFrame) : bool :=
  well_formed df
  && (1 <=? length df)%nat && (1 <=? nrows df)%nat
  && forallb (fun s => safe_label (label_of s)) df
  && forallb safe_column df
  && ((2 <=? length df)%nat
      || forallb (fun s => forallb (fun c => negb (is_nan c)) (values s)) df).

(** The round trip as the specification words it: whatever text the
    writer produces for [df] is read back as [df]. *)
Definition round_trip_as_specified (df : DataFrame) : Prop :=
  forall float64 text,
    to_csv_plain float64 df = Some text -> read_csv text = Some df.

(** A frame with the text [NA] in it: what stripping the special
    characters makes of the text [name,country / Bob,N.A. / Eva,DE]. *)
Definition frame_with_na_text : DataFrame :=
  [ mkSeries (LStr "name") object [Str "Bob"; Str "Eva"];
    mkSeries (LStr "country") object [Str "NA"; Str "DE"] ].

(** *** Helpers of the round-trip proof *)

Fixpoint free_of (sep : ascii) (s : string) : bool :=
  match s with
  | EmptyString => true
  | String c s' => negb (Ascii.eqb c sep) && free_of sep s'
  end.

(** The characters of a number written in decimal. *)
Fixpoint all_digits (s : string) : bool :=
  match s with
  | EmptyString => true
  | String c s' => is_digit c && all_digits s'
  end.

(** The digits of a natural number: those of [Z_text] without the sign. *)
Definition N_text (z : Z) : string :=
  match z with
  | Z0 => "0"
  | Zpos p | Zneg p => NilEmpty.string_of_uint (Pos.to_uint p)
  end.

Definition num_char (c : ascii) : bool :=
  is_digit c || Ascii.eqb c "-" || Ascii.eqb c ".".

Fixpoint num_chars (s : string) : bool :=
  match s with
  | EmptyString => true
  | String c s' => num_char c && num_chars s'
  end.

Definition cell_str (as_float : bool) (c : cell) : string :=
  match cell_text as_float c with
  | Some t => t
  | None => EmptyString
  end.

Definition label_name (l : label) : string :=
  match l with
  | LStr s => s
  | LInt z => Z_text z
  end.

(** A cell that is safe in a column of dtype [d]. *)
Definition safe_cell (d : dtype) (c : cell) : bool :=
  match d with
  | number => safe_number c
  | boolean => is_bool c
  | object => safe_text c
  end.

(** *** Vocabulary of the further properties *)

(** The mask that keeps the first [n] of [len] rows: [df.head(n)] is
    the selection by this mask. *)
Definition head_mask (n len : nat) : list bool :=
  repeat true (Nat.min n len) ++ repeat false (len - n).

(** Text made of ASCII characters only.  On such text [lower] is
    Python's [str.lower()]; on other text [str.lower()] follows the
    Unicode tables, which [lower] does not. *)
Definition is_ascii (c : ascii) : bool := (nat_of_ascii c <? 128)%nat.

Fixpoint ascii_only (s : string) : bool :=
  match s with
  | EmptyString => true
  | String c s' => is_ascii c && ascii_only s'
  end.

Definition ascii_cell (c : cell) : bool :=
  match c with
  | Str s => ascii_only s
  | _ => true
  end.

Definition ascii_frame (df : DataFrame) : bool :=
  forallb (fun s => forallb ascii_cell (values s)) df.

(** Does the last component of a path (what follows its last slash) hold
    a character other than the dot?  [seen]: one has been met since the
    last slash. *)
Fixpoint has_stem_from (seen : bool) (s : string) : bool :=
  match s with
  | EmptyString => seen
  | String c s' =>
      if Ascii.eqb c "/" then has_stem_from false s'
      else has_stem_from (seen || negb (Ascii.eqb c ".")) s'
  end.

Definition has_stem (s : string) : bool := has_stem_from false s.

(** *** Data for the examples, and helpers of the proofs *)

(** A frame used to try the statements on: a text column with special
    characters and a missing value, a numeric column with a missing
    value, a numeric column with no value at all, and a boolean column. *)
Definition sample_frame : DataFrame :=
  [ mkSeries (LStr "name") object [Str "Al-ice!"; NaN; Str "BOB 2"];
    mkSeries (LStr "age") number [Num (Q2Qc 30); NaN; Num (Q2Qc 40)];
    mkSeries (LStr "empty") number [NaN; NaN; NaN];
    mkSeries (LStr "flag") boolean [Bool true; Bool false; Bool true] ].

(** A frame with a numeric column that has no value present: the text
    ["a,b\n1,\n2,\n"] is read as such a frame. *)
Definition frame_with_empty_column : DataFrame :=
  [ mkSeries (LStr "a") number [Num (Q2Qc 1); Num (Q2Qc 2)];
    mkSeries (LStr "b") number [NaN; NaN] ].

Definition rect (df : DataFrame) (n : nat) : Prop :=
  Forall (fun s => length (values s) = n) df.

Definition hd_row (df : DataFrame) : row :=
  map (fun s => List.hd NaN (values s)) df.

Definition tl_frame (df : DataFrame) : DataFrame :=
  map (fun s => mkSeries (label_of s) (dt s) (List.tl (values s))) df.

Fixpoint count_true (mask : list bool) : nat :=
  match mask with
  | [] => 0
  | b :: mask' => if b then S (count_true mask') else count_true mask'
  end.

(** A frame with repeated rows. *)
Definition frame_with_duplicates : DataFrame :=
  [ mkSeries (LStr "name") object [Str "Alice"; Str "Bob"; Str "Alice"; Str "Bob"];
    mkSeries (LStr "age") number [Num (Q2Qc 30); NaN; Num (Q2Qc 30); Num (Q2Qc 5)] ].

Definition scenario_text : string :=
  "name,age" ++ String LF "Alice,30" ++ String LF "Bob,"
  ++ String LF "Alice,30" ++ String LF "".

Definition scenario_frame : DataFrame :=
  [ mkSeries (LStr "name") object [Str "Alice"; Str "Bob"; Str "Alice"];
    mkSeries (LStr "age") number [Num (Q2Qc 30); NaN; Num (Q2Qc 30)] ].

Definition scenario_result : DataFrame :=
  [ mkSeries (LStr "name") object [Str "Alice"; Str "Bob"];
    mkSeries (LStr "age") number [Num (Q2Qc 30); Num (Q2Qc 30)] ].

(** The widgets when the cleaning box is ticked and the two buttons
    "Remove Duplicates" and "Fill Missing Values" are the ones pressed. *)
Definition scenario_widgets : Widgets :=
  mkWidgets
    (fun label => prefix "🧹 Clean & Transform Data for " label)
    (fun label => prefix "Remove Duplicates from " label
                  || prefix "Fill Missing Values for " label)
    (fun _ options => List.hd_error options)
    (fun _ _ default => default)
    (fun _ _ _ => "CSV").

Definition notes_txt : UploadedFile := mkUploadedFile "notes.txt" 3 "abc".

(** Widgets left alone: no box ticked, no button pressed, the select box
    on its first option, the multiselect on its default. *)
Definition idle_widgets : Widgets :=
  mkWidgets (fun _ => false) (fun _ => false)
            (fun _ options => List.hd_error options)
            (fun _ _ default => default)
            (fun _ options _ => List.hd EmptyString options).

(** Stand-ins for the library calls, for running the script. *)
Definition sample_env : Env :=
  mkEnv (fun _ => None) (fun _ => "csv bytes") (fun _ => "xlsx bytes")
        (fun _ => "<html></html>") "/tmp/tmpk3v9x2ab.html".

Definition download_of (env : Env) (conversion_type : string) (l : Locals)
  : event :=
  if String.eqb conversion_type "CSV" then
    let out_name := replace (file_name l) (file_ext l) ".csv" in
    st_download_button ("⬇️ Download " ++ out_name) (to_csv env (df l))
                       out_name "text/csv"
  else
    let out_name := replace (file_name l) (file_ext l) ".xlsx" in
    st_download_button ("⬇️ Download " ++ out_name) (to_excel env (df l))
                       out_name
      "application/vnd.openxmlformats-officedocument.spreadsheetml.sheet".

(** Only the "Convert" button is pressed, with [target] chosen. *)
Definition convert_widgets (target : string) : Widgets :=
  mkWidgets (fun _ => false) (fun label => String.eqb label "Convert")
            (fun _ options => List.hd_error options)
            (fun _ _ default => default)
            (fun _ _ _ => target).

(** As [convert_widgets], the report box being ticked as well. *)
Definition report_and_convert_widgets (target : string) : Widgets :=
  mkWidgets (fun label => prefix "Generate AI Report for " label)
            (fun label => String.eqb label "Convert")
            (fun _ options => List.hd_error options)
            (fun _ _ default => default)
            (fun _ _ _ => target).

Definition small_csv : string := "a,b" ++ String LF "1,x" ++ String LF "".

Definition small_frame : DataFrame :=
  [ mkSeries (LStr "a") number [Num (Q2Qc 1)];
    mkSeries (LStr "b") object [Str "x"] ].

Definition is_download (e : event) : bool :=
  match e with
  | st_download_button _ _ _ _ => true
  | _ => false
  end.

Definition xlsx_mime : string :=
  "application/vnd.openxmlformats-officedocument.spreadsheetml.sheet".

(** Stand-ins for the libraries across runs: the workbook carries the
    time at which it was written. *)
Definition sample_library : Library :=
  mkLibrary (fun _ => None) (fun _ => "csv bytes")
            (fun now _ => ("xlsx bytes, created at "
                           ++ NilZero.string_of_uint (N.to_uint now))%string)
            (fun _ => "<html></html>").

(** Exporting twice as the specification words it: two runs on the same
    uploads with the widgets in the same state offer the same bytes,
    whenever each of them happens. *)
Definition export_twice_as_specified (lib : Library) : Prop :=
  forall (w : Widgets) (files : list UploadedFile) (tmp : string) (t1 t2 : N),
    filter is_download (fst (main w (env_at lib t1 tmp) files))
    = filter is_download (fst (main w (env_at lib t2 tmp) files)).

(* ===================================================================== *)
(** ** Theorems *)
(* ===================================================================== *)

(** *** Strings *)

Example splitext_ex1 : splitext "data.csv" = ("data", ".csv").
Proof. reflexivity. Qed.
Example splitext_ex2 : splitext ".bashrc" = (".bashrc", "").
Proof. reflexivity. Qed.
Example splitext_ex3 : splitext "a.b/c" = ("a.b/c", "").
Proof. reflexivity. Qed.
Example splitext_ex4 : splitext "dir/..x.TXT" = ("dir/..x", ".TXT").
Proof. reflexivity. Qed.
Example replace_ex1 : replace "a.csv.csv" ".csv" ".xlsx" = "a.xlsx.xlsx".
Proof. reflexivity. Qed.
Example replace_ex2 : replace "aaa" "aa" "b" = "ba".
Proof. reflexivity. Qed.
Example replace_ex3 : replace "abc" "" "-" = "-a-b-c-".
Proof. reflexivity. Qed.
Example re_sub_special_ex : re_sub_special "He##llo, W0rld!" = "Hello W0rld".
Proof. reflexivity. Qed.

Lemma skip_run_keep_class (s : string) : keep_class (skip_run s) = keep_class s.
Proof.
  induction s as [|c s IH]; simpl; [reflexivity|].
  destruct (in_class c) eqn:E; simpl; [rewrite E; reflexivity | exact IH].
Qed.

(** The substitution removes exactly the characters outside the class. *)
Lemma re_sub_special_keep_class (s : string) : re_sub_special s = keep_class s.
Proof.
  funelim (re_sub_special s); simpl; [reflexivity|].
  destruct (in_class c) eqn:E.
  - f_equal. auto.
  - rewrite <- skip_run_keep_class. auto.
Qed.

Lemma keep_class_in_class (s : string) :
  Forall (fun c => in_class c = true) (list_ascii_of_string (keep_class s)).
Proof.
  induction s as [|c s IH]; simpl; [constructor|].
  destruct (in_class c) eqn:E; simpl; [constructor; assumption | exact IH].
Qed.

Lemma keep_class_idem (s : string) : keep_class (keep_class s) = keep_class s.
Proof.
  induction s as [|c s IH]; simpl; [reflexivity|].
  destruct (in_class c) eqn:E; simpl; [rewrite E, IH; reflexivity | exact IH].
Qed.

(** *** Labels and well-formed frames *)

Lemma label_eqb_eq (a b : label) : label_eqb a b = true <-> a = b.
Proof. unfold label_eqb. destruct (label_eq_dec a b); split; congruence. Qed.

Lemma label_eqb_refl (a : label) : label_eqb a a = true.
Proof. apply label_eqb_eq. reflexivity. Qed.

Lemma label_eqb_neq (a b : label) : label_eqb a b = false <-> a <> b.
Proof. unfold label_eqb. destruct (label_eq_dec a b); split; congruence. Qed.

Lemma cell_eqb_refl (a : cell) : cell_eqb a a = true.
Proof. unfold cell_eqb. destruct (cell_eq_dec a a); congruence. Qed.

Lemma row_eqb_eq (a b : row) : row_eqb a b = true <-> a = b.
Proof. unfold row_eqb. destruct (row_eq_dec a b); split; congruence. Qed.

Lemma dtype_eqb_eq (a b : dtype) : dtype_eqb a b = true <-> a = b.
Proof. unfold dtype_eqb. destruct (dtype_eq_dec a b); split; congruence. Qed.

Lemma existsb_label_In (l : label) (ls : list label) :
  existsb (label_eqb l) ls = true <-> In l ls.
Proof.
  rewrite existsb_exists. split.
  - intros [x [Hin Heq]]. apply label_eqb_eq in Heq. subst. assumption.
  - intros Hin. exists l. split; [assumption | apply label_eqb_refl].
Qed.

Lemma distinct_labels_NoDup (ls : list label) :
  distinct_labels ls = true <-> NoDup ls.
Proof.
  induction ls as [|l ls IH]; simpl.
  - split; [constructor | reflexivity].
  - rewrite andb_true_iff, negb_true_iff, IH. split.
    + intros [Hn Hd]. constructor; [|assumption].
      intro Hin. apply existsb_label_In in Hin. congruence.
    + intros H. inversion H as [|? ? Hn Hd]; subst. split; [|assumption].
      destruct (existsb (label_eqb l) ls) eqn:E; [|reflexivity].
      apply existsb_label_In in E. contradiction.
Qed.

Lemma wf_frame_NoDup (df : DataFrame) : wf_frame df -> NoDup (columns df).
Proof.
  unfold wf_frame, well_formed. rewrite andb_true_iff.
  intros [H _]. apply distinct_labels_NoDup. exact H.
Qed.

Lemma wf_frame_rect (df : DataFrame) :
  wf_frame df -> Forall (fun s => length (values s) = nrows df) df.
Proof.
  unfold wf_frame, well_formed. rewrite andb_true_iff.
  intros [_ H]. rewrite forallb_forall in H. apply Forall_forall.
  intros s Hs. apply Nat.eqb_eq. auto.
Qed.

Lemma series_eta (s : Series) : mkSeries (label_of s) (dt s) (values s) = s.
Proof. destruct s; reflexivity. Qed.

(** *** Selecting columns and assigning them back *)

Section Assign.

Variable f : Series -> Series.
Hypothesis f_label : forall s, label_of (f s) = label_of s.

Lemma NoDup_map_inj {A B : Type} (g : A -> B) (l : list A) (x y : A) :
  NoDup (map g l) -> In x l -> In y l -> g x = g y -> x = y.
Proof.
  induction l as [|a l IH]; simpl; [tauto|].
  intros Hnd Hx Hy Heq. inversion Hnd as [|? ? Hn Hd]; subst.
  destruct Hx as [Hx|Hx], Hy as [Hy|Hy]; subst.
  - reflexivity.
  - exfalso. apply Hn. rewrite Heq. apply in_map. assumption.
  - exfalso. apply Hn. rewrite <- Heq. apply in_map. assumption.
  - apply IH; assumption.
Qed.

Lemma filter_label_absent (df : DataFrame) (k : label) :
  ~ In k (columns df) ->
  filter (fun x => label_eqb (label_of x) k) df = [].
Proof.
  unfold columns. induction df as [|a df IH]; simpl; intros Hn; [reflexivity|].
  destruct (label_eqb (label_of a) k) eqn:E.
  - apply label_eqb_eq in E. tauto.
  - apply IH. tauto.
Qed.

Lemma filter_label_unique (df : DataFrame) (s : Series) :
  NoDup (columns df) -> In s df ->
  filter (fun x => label_eqb (label_of x) (label_of s)) df = [s].
Proof.
  unfold columns. induction df as [|a df IH]; simpl; [tauto|].
  intros Hnd Hin. inversion Hnd as [|? ? Hn Hd]; subst.
  destruct Hin as [Hin|Hin].
  - subst a. rewrite label_eqb_refl. f_equal.
    apply filter_label_absent. assumption.
  - destruct (label_eqb (label_of a) (label_of s)) eqn:E.
    + apply label_eqb_eq in E. exfalso. apply Hn. rewrite E.
      apply in_map. assumption.
    + apply IH; assumption.
Qed.

Lemma getitem_list_sub (df sub : DataFrame) :
  NoDup (columns df) -> incl sub df -> getitem_list df (columns sub) = sub.
Proof.
  intros Hnd. unfold getitem_list, columns.
  induction sub as [|s sub IH]; simpl; intros Hincl; [reflexivity|].
  rewrite filter_label_unique by (auto; apply Hincl; left; reflexivity).
  simpl. f_equal. apply IH. intros x Hx. apply Hincl. right. assumption.
Qed.

Lemma setitem_present (df : DataFrame) (k : label) (col : Series) :
  In k (columns df) ->
  setitem df k col =
  map (fun s => if label_eqb (label_of s) k
                then mkSeries k (dt col) (values col) else s) df.
Proof.
  intros Hin. unfold setitem.
  replace (existsb (fun s => label_eqb (label_of s) k) df) with true;
    [reflexivity|].
  symmetry. apply existsb_exists. unfold columns in Hin.
  apply in_map_iff in Hin. destruct Hin as [s [Hs Hin]].
  exists s. split; [assumption|]. apply label_eqb_eq. assumption.
Qed.

Lemma setitem_list_update (sub df : DataFrame) :
  NoDup (columns df) -> NoDup (columns sub) -> incl sub df ->
  setitem_list df (columns sub) (map f sub) =
  map (fun x => if existsb (label_eqb (label_of x)) (columns sub)
                then f x else x) df.
Proof.
  revert df. induction sub as [|s sub IH]; intros df Hnd Hsub Hincl.
  - simpl. symmetry. apply map_id.
  - simpl. assert (Hs : In s df) by (apply Hincl; left; reflexivity).
    inversion Hsub as [|? ? Hn Hd]; subst.
    rewrite setitem_present by (apply in_map; assumption).
    set (step := fun x : Series =>
                   if label_eqb (label_of x) (label_of s)
                   then mkSeries (label_of s) (dt (f s)) (values (f s)) else x).
    assert (Hcols : columns (map step df) = columns df).
    { unfold columns. rewrite map_map. apply map_ext. intros x. unfold step.
      destruct (label_eqb (label_of x) (label_of s)) eqn:E; [|reflexivity].
      apply label_eqb_eq in E. simpl. congruence. }
    rewrite IH.
    + rewrite map_map. apply map_ext_in. intros x Hx. unfold step.
      destruct (label_eqb (label_of x) (label_of s)) eqn:E.
      * apply label_eqb_eq in E.
        assert (x = s) by exact (NoDup_map_inj label_of df x s Hnd Hx Hs E).
        subst x. simpl.
        replace (existsb (label_eqb (label_of s)) (columns sub)) with false.
        -- rewrite <- (f_label s). apply series_eta.
        -- symmetry. apply not_true_is_false. intro H.
           apply existsb_label_In in H. contradiction.
      * reflexivity.
    + rewrite Hcols. assumption.
    + assumption.
    + intros x Hx. apply in_map_iff. exists x. split.
      * unfold step.
        destruct (label_eqb (label_of x) (label_of s)) eqn:E; [|reflexivity].
        apply label_eqb_eq in E. exfalso. apply Hn. rewrite <- E.
        apply in_map. assumption.
      * apply Hincl. right. assumption.
Qed.

Lemma NoDup_columns_filter (p : Series -> bool) (df : DataFrame) :
  NoDup (columns df) -> NoDup (columns (filter p df)).
Proof.
  unfold columns. induction df as [|a df IH]; simpl; intros Hnd; [constructor|].
  inversion Hnd as [|? ? Hn Hd]; subst.
  destruct (p a); simpl; [constructor|]; auto.
  intro H. apply Hn. apply in_map_iff in H. destruct H as [x [Hx Hin]].
  apply filter_In in Hin. rewrite <- Hx. apply in_map. tauto.
Qed.

Lemma selected_label_iff (p : Series -> bool) (df : DataFrame) (x : Series) :
  NoDup (columns df) -> In x df ->
  existsb (label_eqb (label_of x)) (columns (filter p df)) = p x.
Proof.
  intros Hnd Hx. destruct (p x) eqn:E.
  - apply existsb_label_In. apply in_map. apply filter_In. tauto.
  - apply not_true_is_false. intro H. apply existsb_label_In in H.
    apply in_map_iff in H. destruct H as [y [Hy Hin]].
    apply filter_In in Hin. destruct Hin as [Hin Hp].
    assert (y = x) by exact (NoDup_map_inj label_of df y x Hnd Hin Hx Hy).
    congruence.
Qed.

(** Selecting the columns that satisfy [p], transforming each one with
    [f] and assigning the result back under the same labels updates
    exactly those columns, in place. *)
Lemma assign_selected (p : Series -> bool) (df : DataFrame) :
  NoDup (columns df) ->
  let keys := columns (filter p df) in
  setitem_list df keys (map f (getitem_list df keys)) = update_where p f df.
Proof.
  intros Hnd keys. unfold keys.
  rewrite getitem_list_sub by (auto; intros x Hx; apply filter_In in Hx; tauto).
  rewrite setitem_list_update; auto.
  - unfold update_where. apply map_ext_in. intros x Hx.
    rewrite selected_label_iff by assumption. reflexivity.
  - apply NoDup_columns_filter. assumption.
  - intros x Hx. apply filter_In in Hx. tauto.
Qed.

End Assign.

(** *** The three column-wise cleaning steps *)

Lemma select_dtypes_filter (d : dtype) (df : DataFrame) :
  select_dtypes d df = filter (has_dtype d) df.
Proof. reflexivity. Qed.

Lemma strip_special_update (df : DataFrame) :
  wf_frame df ->
  strip_special df = update_where (has_dtype object) keep_class_column df.
Proof.
  intros Hwf. unfold strip_special. rewrite select_dtypes_filter.
  change (replace_regex ?x) with (map strip_column x).
  rewrite (assign_selected strip_column) by (auto using wf_frame_NoDup).
  unfold update_where. apply map_ext. intros s.
  destruct (has_dtype object s); [|reflexivity].
  unfold strip_column, keep_class_column. f_equal.
  apply map_ext. intros [| | t |]; simpl; try reflexivity.
  now rewrite re_sub_special_keep_class.
Qed.

Lemma lowercase_text_update (df df' : DataFrame) :
  wf_frame df -> lowercase_text df = Some df' ->
  df' = update_where (has_dtype object) str_lower df.
Proof.
  intros Hwf. unfold lowercase_text. rewrite select_dtypes_filter.
  destruct (forallb _ _); [|discriminate].
  intros H. injection H as <-. unfold apply.
  now rewrite (assign_selected str_lower) by (auto using wf_frame_NoDup).
Qed.

Lemma lookup_mean_frame (sub : DataFrame) (s : Series) :
  NoDup (columns sub) -> In s sub ->
  lookup_mean (label_of s) (frame_mean sub) = mean (values s).
Proof.
  unfold columns. induction sub as [|a sub IH]; simpl; [tauto|].
  intros Hnd Hin. inversion Hnd as [|? ? Hn Hd]; subst.
  destruct (label_eqb (label_of a) (label_of s)) eqn:E.
  - apply label_eqb_eq in E. destruct Hin as [->|Hin]; [reflexivity|].
    exfalso. apply Hn. rewrite E. now apply in_map.
  - destruct Hin as [->|Hin]; [|now apply IH].
    rewrite label_eqb_refl in E. discriminate.
Qed.

Lemma fillna_own_mean (sub : DataFrame) :
  NoDup (columns sub) ->
  fillna sub (frame_mean sub) = map fill_with_mean sub.
Proof.
  intros Hnd. unfold fillna. apply map_ext_in. intros s Hs.
  rewrite lookup_mean_frame by assumption. reflexivity.
Qed.

Lemma fill_with_mean_label (s : Series) :
  label_of (fill_with_mean s) = label_of s.
Proof. unfold fill_with_mean. now destruct (mean (values s)). Qed.

Lemma fill_missing_update (df : DataFrame) :
  wf_frame df ->
  index_any (columns (select_dtypes number df)) = true ->
  fill_missing df = (update_where (has_dtype number) fill_with_mean df, true).
Proof.
  intros Hwf Hany. unfold fill_missing. rewrite Hany. f_equal.
  rewrite select_dtypes_filter.
  pose proof (wf_frame_NoDup df Hwf) as Hnd.
  rewrite getitem_list_sub
    by (auto; intros x Hx; apply filter_In in Hx; tauto).
  rewrite fillna_own_mean by now apply NoDup_columns_filter.
  rewrite <- (getitem_list_sub df (filter (has_dtype number) df)) at 2
    by (auto; intros x Hx; apply filter_In in Hx; tauto).
  apply (assign_selected fill_with_mean fill_with_mean_label); assumption.
Qed.

Lemma fill_cell_related (m : Qc) (vs : list cell) :
  Forall2 (fun c c' => c' = c \/ (c = NaN /\ c' = Num m)) vs (map (fill_cell m) vs).
Proof.
  induction vs as [|v vs IH]; simpl; constructor; [|assumption].
  destruct v; simpl; auto.
Qed.

Lemma Forall2_map_r {A B : Type} (g : A -> B) (l : list A) :
  Forall2 (fun a b => b = g a) l (map g l).
Proof. induction l; simpl; constructor; auto. Qed.

Lemma Forall2_refl_on {A : Type} (R : A -> A -> Prop) (l : list A) :
  (forall a, R a a) -> Forall2 R l l.
Proof. intros H. induction l; constructor; auto. Qed.

(** A column-wise update by dtype only touches the columns of that
    dtype, provided the update keeps labels, dtypes and positions. *)
Lemma update_where_touch (d : dtype) (R : cell -> cell -> Prop)
  (f : Series -> Series) (df : DataFrame) :
  (forall s, dt s = d ->
             label_of (f s) = label_of s /\ dt (f s) = dt s
             /\ Forall2 R (values s) (values (f s))) ->
  frame_touch d R df (update_where (has_dtype d) f df).
Proof.
  intros Hf. unfold frame_touch, update_where.
  induction df as [|s df IH]; simpl; constructor; [|assumption].
  unfold has_dtype. destruct (dtype_eqb (dt s) d) eqn:E.
  - apply dtype_eqb_eq in E. destruct (Hf s E) as [Hl [Hd HR]].
    repeat split; auto.
    + symmetry. eapply Forall2_length. eassumption.
    + intros Hne. contradiction.
  - repeat split; auto. intros Hd. apply dtype_eqb_eq in Hd. congruence.
Qed.

(** C3.  After the special characters are stripped, every cell of every
    text column holds only characters of [A-Za-z0-9 ]: the step rewrites
    the text columns, and only them, by keeping in each string exactly
    its characters of that class. *)
Theorem strip_special_chars_in_class (df : DataFrame) :
  wf_frame df ->
  strip_special df = update_where (has_dtype object) keep_class_column df
  /\ (forall s c, In s (strip_special df) -> dt s = object ->
                  In c (values s) ->
                  Forall (fun a => in_class a = true) (cell_chars c)).
Proof.
  intros Hwf. split; [now apply strip_special_update|].
  rewrite strip_special_update by assumption.
  intros s c Hs Hd Hc. unfold update_where in Hs.
  apply in_map_iff in Hs. destruct Hs as [s0 [<- Hs0]].
  unfold has_dtype in *. destruct (dtype_eqb (dt s0) object) eqn:E.
  - simpl in Hc. apply in_map_iff in Hc. destruct Hc as [c0 [<- _]].
    destruct c0; simpl; try constructor. apply keep_class_in_class.
  - apply dtype_eqb_eq in Hd. congruence.
Qed.

Lemma strip_special_chars_in_class_witness :
  wf_frame sample_frame
  /\ strip_special sample_frame
     = update_where (has_dtype object) keep_class_column sample_frame
  /\ (forall s c, In s (strip_special sample_frame) -> dt s = object ->
                  In c (values s) ->
                  Forall (fun a => in_class a = true) (cell_chars c)).
Proof.
  split; [reflexivity|].
  apply (strip_special_chars_in_class sample_frame). reflexivity.
Defined.

(** C10.  Each cleaning step touches only the columns of its class:
    lowercasing and stripping change text (object) columns only, filling
    changes numeric columns only; labels, dtypes, the order of the
    columns, the number of rows and their order stay as they were. *)
Theorem cleaning_touches_only_its_columns (df : DataFrame) :
  wf_frame df ->
  (forall df', lowercase_text df = Some df' ->
               frame_touch object (fun c c' => c' = str_lower_cell c) df df')
  /\ frame_touch object (fun c c' => c' = keep_class_cell c) df (strip_special df)
  /\ frame_touch number (fun c c' => c' = c \/ c = NaN) df (fst (fill_missing df)).
Proof.
  intros Hwf. repeat split.
  - intros df' H. rewrite (lowercase_text_update df df' Hwf H).
    apply update_where_touch. intros s Hd. simpl.
    repeat split; auto. apply Forall2_map_r.
  - rewrite strip_special_update by assumption.
    apply update_where_touch. intros s Hd. simpl.
    repeat split. apply Forall2_map_r.
  - destruct (index_any (columns (select_dtypes number df))) eqn:Hany.
    + rewrite fill_missing_update by assumption. simpl.
      apply update_where_touch. intros s Hd.
      rewrite fill_with_mean_label. unfold fill_with_mean.
      destruct (mean (values s)) as [m|]; simpl; repeat split.
      * eapply Forall2_impl; [|apply fill_cell_related].
        intros a b [H|[H _]]; auto.
      * apply Forall2_refl_on. auto.
    + unfold fill_missing. rewrite Hany. simpl.
      replace df with (update_where (has_dtype number) (fun s => s) df) at 2.
      * apply update_where_touch. intros s Hd. repeat split.
        apply Forall2_refl_on. auto.
      * unfold update_where. rewrite <- (map_id df) at 2.
        apply map_ext. intros s. now destruct (has_dtype number s).
Qed.

Lemma cleaning_touches_only_its_columns_witness :
  wf_frame sample_frame
  /\ (forall df', lowercase_text sample_frame = Some df' ->
                  frame_touch object (fun c c' => c' = str_lower_cell c)
                              sample_frame df')
  /\ frame_touch object (fun c c' => c' = keep_class_cell c)
                 sample_frame (strip_special sample_frame)
  /\ frame_touch number (fun c c' => c' = c \/ c = NaN)
                 sample_frame (fst (fill_missing sample_frame)).
Proof.
  split; [reflexivity|].
  apply (cleaning_touches_only_its_columns sample_frame). reflexivity.
Defined.

(** *** Filling the missing values *)

Lemma fill_missing_no_numeric (df : DataFrame) :
  select_dtypes number df = [] -> fill_missing df = (df, false).
Proof. intros H. unfold fill_missing. rewrite H. reflexivity. Qed.

Lemma fill_with_mean_no_missing (s : Series) (m : Qc) :
  mean (values s) = Some m -> ~ In NaN (values (fill_with_mean s)).
Proof.
  intros Hm. unfold fill_with_mean. rewrite Hm. simpl.
  intros H. apply in_map_iff in H. destruct H as [c [Hc _]].
  destruct c; discriminate.
Qed.

(** The button never raises: besides the button itself it writes
    nothing, a success or a warning. *)
Lemma fill_missing_button_ok (w : Widgets) (l : Locals) :
  exists out l', fill_missing_button w l = (out, Ok tt l')
                 /\ Forall is_notice (filter (fun e => negb (is_widget e)) out).
Proof.
  unfold fill_missing_button, ask_button, bind, get, emit, ret, when.
  cbv beta iota.
  destruct (button w _).
  - destruct (fill_missing (df l)) as [d [|]]; simpl;
      eexists; eexists; (split; [reflexivity|]); repeat constructor.
  - simpl. eexists; eexists; (split; [reflexivity|]); constructor.
Qed.

(** C5, as stated, fails: with a numeric column that has no value
    present the step reports success and leaves the missing entries of
    that column missing (there is no mean to fill them with). *)
Lemma fill_missing_empty_column :
  ~ fill_missing_as_specified frame_with_empty_column.
Proof.
  intros [_ H].
  destruct H as [_ H]; [discriminate|].
  apply (H (mkSeries (LStr "b") number [NaN; NaN])).
  - right. left. reflexivity.
  - reflexivity.
  - left. reflexivity.
Qed.

(** C5, amended.  Without numeric columns the step warns and alters
    nothing.  When the test on the numeric columns' labels passes it
    reports success and rewrites the numeric columns only: a column with
    at least one value present gets its mean in place of every missing
    entry, a column with none is left as it is.  Pressing the button
    never raises: besides the button, the step writes a success or a
    warning at most. *)
Theorem fill_missing_by_design (df : DataFrame) :
  wf_frame df ->
  (select_dtypes number df = [] -> fill_missing df = (df, false))
  /\ (index_any (columns (select_dtypes number df)) = true ->
      fill_missing df = (update_where (has_dtype number) fill_with_mean df, true)
      /\ forall s m, In s df -> dt s = number -> mean (values s) = Some m ->
           In (mkSeries (label_of s) number (map (fill_cell m) (values s)))
              (fst (fill_missing df))
           /\ ~ In NaN (map (fill_cell m) (values s)))
  /\ (forall w l, exists out l',
        fill_missing_button w l = (out, Ok tt l')
        /\ Forall is_notice (filter (fun e => negb (is_widget e)) out)).
Proof.
  intros Hwf. split; [apply fill_missing_no_numeric|]. split.
  - intros Hany. split; [now apply fill_missing_update|].
    intros s m Hs Hd Hm. rewrite fill_missing_update by assumption. simpl.
    split.
    + unfold update_where. apply in_map_iff. exists s. split; [|assumption].
      unfold has_dtype. rewrite (proj2 (dtype_eqb_eq _ _) Hd).
      unfold fill_with_mean. rewrite Hm, Hd. reflexivity.
    + pose proof (fill_with_mean_no_missing s m Hm) as H.
      unfold fill_with_mean in H. rewrite Hm in H. exact H.
  - intros w l. apply fill_missing_button_ok.
Qed.

(** *** Rows of a frame *)

Lemma rect_nrows (df : DataFrame) (n : nat) :
  df <> [] -> rect df n -> nrows df = n.
Proof.
  destruct df as [|s df]; [congruence|]. intros _ H.
  inversion H; subst. reflexivity.
Qed.

Lemma wf_frame_rect_nrows (df : DataFrame) : wf_frame df -> rect df (nrows df).
Proof. apply wf_frame_rect. Qed.

Lemma rect_tl_frame (df : DataFrame) (n : nat) :
  rect df (S n) -> rect (tl_frame df) n.
Proof.
  unfold rect, tl_frame. intros H. apply Forall_map.
  eapply Forall_impl; [|exact H]. intros s Hs. cbv beta in Hs. simpl.
  destruct (values s); simpl in *; [discriminate | lia].
Qed.

Lemma row_at_S (df : DataFrame) (i : nat) :
  row_at df (S i) = row_at (tl_frame df) i.
Proof.
  unfold row_at, tl_frame. rewrite map_map. apply map_ext. intros s. simpl.
  destruct (values s); [destruct i|]; reflexivity.
Qed.

Lemma row_at_0 (df : DataFrame) : row_at df 0 = hd_row df.
Proof.
  unfold row_at, hd_row. apply map_ext. intros s. now destruct (values s).
Qed.

Lemma rows_cons (df : DataFrame) (n : nat) :
  df <> [] -> rect df (S n) ->
  rows df = hd_row df :: rows (tl_frame df).
Proof.
  intros Hne Hr. unfold rows.
  rewrite (rect_nrows df (S n) Hne Hr).
  assert (Hn : nrows (tl_frame df) = n).
  { apply rect_nrows; [|now apply rect_tl_frame].
    destruct df; [congruence | discriminate]. }
  rewrite Hn. simpl. rewrite row_at_0. f_equal.
  rewrite <- seq_shift, map_map. apply map_ext. intros i. apply row_at_S.
Qed.

Lemma rows_length (df : DataFrame) : length (rows df) = nrows df.
Proof. unfold rows. now rewrite length_map, length_seq. Qed.

Lemma nth_rows (df : DataFrame) (i : nat) :
  i < nrows df -> nth i (rows df) [] = row_at df i.
Proof.
  intros Hi. unfold rows.
  rewrite (nth_indep _ [] (row_at df 0)) by now rewrite length_map, length_seq.
  rewrite map_nth. now rewrite seq_nth.
Qed.

Lemma mask_select_length (mask : list bool) (vs : list cell) :
  length vs = length mask -> length (mask_select mask vs) = count_true mask.
Proof.
  revert vs. induction mask as [|b mask IH]; intros [|v vs] H; simpl in *;
    try discriminate; try reflexivity.
  destruct b; simpl; rewrite IH; auto.
Qed.

Lemma rect_getitem_mask (df : DataFrame) (mask : list bool) :
  rect df (length mask) -> rect (getitem_mask df mask) (count_true mask).
Proof.
  unfold rect, getitem_mask. intros H. apply Forall_map.
  eapply Forall_impl; [|exact H]. intros s Hs. simpl.
  now apply mask_select_length.
Qed.

Lemma getitem_mask_cons (df : DataFrame) (b : bool) (mask : list bool) (n : nat) :
  rect df (S n) ->
  getitem_mask df (b :: mask) =
  if b
  then map (fun s => mkSeries (label_of s) (dt s)
                       (List.hd NaN (values s)
                          :: mask_select mask (List.tl (values s)))) df
  else getitem_mask (tl_frame df) mask.
Proof.
  unfold rect, getitem_mask, tl_frame. intros H.
  destruct b; [|rewrite map_map]; apply map_ext_in; intros s Hs;
    rewrite Forall_forall in H; specialize (H s Hs); cbv beta in H;
    destruct (values s); simpl in *; try discriminate; reflexivity.
Qed.

(** Boolean indexing selects the rows whose mask bit is set. *)
Lemma rows_getitem_mask (mask : list bool) (df : DataFrame) :
  df <> [] -> rect df (length mask) ->
  rows (getitem_mask df mask) = select_rows mask (rows df).
Proof.
  revert df. induction mask as [|b mask IH]; intros df Hne Hr.
  - unfold rows at 1.
    rewrite (rect_nrows (getitem_mask df []) 0).
    + reflexivity.
    + destruct df; [congruence | discriminate].
    + apply (rect_getitem_mask df []). assumption.
  - simpl in Hr. rewrite (rows_cons df (length mask)) by assumption.
    assert (Hne' : tl_frame df <> [])
      by (destruct df; [congruence | discriminate]).
    rewrite (getitem_mask_cons df b mask (length mask)) by assumption.
    destruct b; simpl.
    + set (G := map _ df).
      assert (HG : rect G (S (count_true mask))).
      { unfold G, rect. apply Forall_map. eapply Forall_impl; [|exact Hr].
        intros s Hs. cbv beta in Hs. simpl. f_equal. apply mask_select_length.
        destruct (values s); simpl in *; [discriminate | lia]. }
      rewrite (rows_cons G (count_true mask));
        [|unfold G; destruct df; [congruence | discriminate] | assumption].
      f_equal.
      * unfold G, hd_row. rewrite map_map. reflexivity.
      * replace (tl_frame G) with (getitem_mask (tl_frame df) mask).
        -- apply IH; [assumption | now apply rect_tl_frame].
        -- unfold G, tl_frame, getitem_mask. now rewrite !map_map.
    + apply IH; [assumption | now apply rect_tl_frame].
Qed.

Lemma mask_select_all (vs : list cell) (n : nat) :
  length vs <= n -> mask_select (repeat true n) vs = vs.
Proof.
  revert n. induction vs as [|v vs IH]; intros [|n] H; simpl in *;
    try reflexivity; try lia.
  f_equal. apply IH. lia.
Qed.

Lemma getitem_mask_all (df : DataFrame) (n : nat) :
  rect df n -> getitem_mask df (repeat true n) = df.
Proof.
  unfold rect, getitem_mask. intros H. rewrite <- (map_id df) at 2.
  apply map_ext_in. intros s Hs. rewrite Forall_forall in H.
  rewrite mask_select_all by (rewrite (H s Hs); lia). apply series_eta.
Qed.

(** *** Duplicates *)

Lemma existsb_row_In (r : row) (seen : list row) :
  existsb (row_eqb r) seen = true <-> In r seen.
Proof.
  rewrite existsb_exists. split.
  - intros [x [Hin Heq]]. apply row_eqb_eq in Heq. now subst.
  - intros Hin. exists r. split; [assumption | now apply row_eqb_eq].
Qed.

Lemma duplicated_scan_length (seen rs : list row) :
  length (duplicated_scan seen rs) = length rs.
Proof.
  revert seen. induction rs as [|r rs IH]; intros seen; simpl; auto.
Qed.

(** The scan marks row [i] exactly when an equal row was seen before
    it: among the rows given at the start or among the rows before [i]. *)
Lemma duplicated_scan_nth (rs seen : list row) (i : nat) :
  i < length rs ->
  (nth i (duplicated_scan seen rs) false = true <->
   In (nth i rs []) seen \/ exists j, j < i /\ nth j rs [] = nth i rs []).
Proof.
  revert seen i. induction rs as [|r rs IH]; intros seen i Hi; simpl in *;
    [lia|].
  destruct i as [|i].
  - rewrite existsb_row_In. split; [tauto|].
    intros [H|[j [Hj _]]]; [assumption | lia].
  - rewrite IH by lia. simpl. split.
    + intros [[H|H]|[j [Hj Heq]]].
      * right. exists 0. split; [lia | assumption].
      * left. assumption.
      * right. exists (S j). split; [lia | assumption].
    + intros [H|[j [Hj Heq]]]; [tauto|].
      destruct j as [|j]; [tauto|].
      right. exists j. split; [lia | assumption].
Qed.

(** Among the rows that the scan leaves unmarked, scanning again marks
    nothing. *)
Lemma duplicated_scan_kept (rs seen seen' : list row) :
  incl seen' seen ->
  let kept := select_rows (map negb (duplicated_scan seen rs)) rs in
  duplicated_scan seen' kept = repeat false (length kept).
Proof.
  revert seen seen'. induction rs as [|r rs IH]; intros seen seen' Hincl;
    simpl; [reflexivity|].
  destruct (existsb (row_eqb r) seen) eqn:E; simpl.
  - apply IH. intros x Hx. right. now apply Hincl.
  - f_equal.
    + apply not_true_is_false. intro H. apply existsb_row_In in H.
      apply Hincl in H. apply existsb_row_In in H. congruence.
    + apply IH. intros x [Hx|Hx]; [left | right; apply Hincl]; assumption.
Qed.

Lemma map_negb_repeat_false (n : nat) :
  map negb (repeat false n) = repeat true n.
Proof. induction n; simpl; congruence. Qed.

Lemma drop_duplicates_rows (df : DataFrame) :
  wf_frame df ->
  rows (drop_duplicates df) = select_rows (map negb (duplicated df)) (rows df).
Proof.
  intros Hwf. destruct df as [|s df]; [reflexivity|].
  unfold drop_duplicates. apply rows_getitem_mask; [discriminate|].
  unfold duplicated. rewrite length_map, duplicated_scan_length, rows_length.
  now apply wf_frame_rect_nrows.
Qed.

Lemma drop_duplicates_idempotent (df : DataFrame) :
  wf_frame df ->
  drop_duplicates (drop_duplicates df) = drop_duplicates df.
Proof.
  intros Hwf. destruct df as [|s df]; [reflexivity|].
  set (T := s :: df) in *.
  assert (Hr : rect (drop_duplicates T) (count_true (map negb (duplicated T)))).
  { unfold drop_duplicates. apply rect_getitem_mask.
    unfold duplicated.
    rewrite length_map, duplicated_scan_length, rows_length.
    now apply wf_frame_rect_nrows. }
  assert (Hn : nrows (drop_duplicates T) = count_true (map negb (duplicated T))).
  { apply rect_nrows; [discriminate | assumption]. }
  assert (Hd : duplicated (drop_duplicates T)
               = repeat false (nrows (drop_duplicates T))).
  { rewrite <- rows_length. unfold duplicated at 1.
    rewrite drop_duplicates_rows by assumption. unfold duplicated.
    apply (duplicated_scan_kept (rows T) [] []). apply incl_refl. }
  unfold drop_duplicates at 1. rewrite Hd, map_negb_repeat_false, Hn.
  now apply getitem_mask_all.
Qed.

(** C6.  Removing duplicates is idempotent; it marks exactly the rows
    that are equal to an earlier row, and keeps the others, in order (so
    the first occurrence of every row stays); the columns keep their
    labels and dtypes. *)
Theorem drop_duplicates_keeps_first (df : DataFrame) :
  wf_frame df ->
  drop_duplicates (drop_duplicates df) = drop_duplicates df
  /\ (forall i, i < nrows df ->
        (nth i (duplicated df) false = true <->
         exists j, j < i /\ row_at df j = row_at df i))
  /\ rows (drop_duplicates df)
     = select_rows (map negb (duplicated df)) (rows df)
  /\ map (fun s => (label_of s, dt s)) (drop_duplicates df)
     = map (fun s => (label_of s, dt s)) df.
Proof.
  intros Hwf. split; [now apply drop_duplicates_idempotent|]. split; [|split].
  - intros i Hi. unfold duplicated.
    rewrite duplicated_scan_nth by now rewrite rows_length.
    rewrite (nth_rows df i Hi). split.
    + intros [[]|[j [Hj Heq]]]. exists j. split; [assumption|].
      now rewrite (nth_rows df j) in Heq by lia.
    + intros [j [Hj Heq]]. right. exists j. split; [assumption|].
      now rewrite (nth_rows df j) by lia.
  - now apply drop_duplicates_rows.
  - unfold drop_duplicates, getitem_mask. rewrite map_map. reflexivity.
Qed.

(** *** Filtering *)

Lemma unique_scan_covers (vals seen : list cell) (v : cell) :
  In v vals -> In v seen \/ In v (unique_scan seen vals).
Proof.
  revert seen. induction vals as [|a vals IH]; intros seen; simpl; [tauto|].
  intros [->|Hin].
  - destruct (existsb (cell_eqb v) seen) eqn:E.
    + left. apply existsb_exists in E. destruct E as [x [Hx Heq]].
      unfold cell_eqb in Heq. destruct (cell_eq_dec v x); [now subst | discriminate].
    + right. left. reflexivity.
  - destruct (existsb (cell_eqb a) seen).
    + now apply IH.
    + destruct (IH (a :: seen) Hin) as [[->|H]|H]; simpl; auto.
Qed.

Lemma isin_unique (s : Series) :
  isin s (unique s) = repeat true (length (values s)).
Proof.
  unfold isin, unique.
  assert (H : forall v, In v (values s) ->
                        existsb (cell_eqb v) (unique_scan [] (values s)) = true).
  { intros v Hv. apply existsb_exists. exists v. split; [|apply cell_eqb_refl].
    destruct (unique_scan_covers (values s) [] v Hv) as [[]|]; assumption. }
  revert H. generalize (unique_scan [] (values s)) as u.
  induction (values s) as [|v vs IH]; intros u H; simpl; [reflexivity|].
  rewrite H by now left. f_equal. apply IH. intros x Hx. apply H. now right.
Qed.

Lemma getitem_In (df : DataFrame) (c : label) :
  In c (columns df) ->
  exists col, getitem df c = Some col /\ In col df /\ label_of col = c.
Proof.
  unfold getitem, columns. intros Hin. apply in_map_iff in Hin.
  destruct Hin as [s [Hs Hin]].
  destruct (find (fun s0 => label_eqb (label_of s0) c) df) as [col|] eqn:E.
  - exists col. apply find_some in E. destruct E as [Hc Hl].
    apply label_eqb_eq in Hl. auto.
  - exfalso. apply (find_none _ _ E) in Hin.
    rewrite Hs, label_eqb_refl in Hin. discriminate.
Qed.

Lemma filter_isin_unique (df : DataFrame) (c : label) (col : Series) :
  wf_frame df -> getitem df c = Some col ->
  filter_isin df c (unique col) = Some df.
Proof.
  intros Hwf Hg. unfold filter_isin. rewrite Hg. f_equal.
  assert (Hin : In col df).
  { unfold getitem in Hg. apply find_some in Hg. tauto. }
  rewrite isin_unique. apply getitem_mask_all.
  pose proof (wf_frame_rect df Hwf) as Hr. unfold rect.
  rewrite Forall_forall in Hr. rewrite (Hr col Hin). now apply Forall_forall.
Qed.

(** C4.  Filtering a frame on one of its columns with all the distinct
    values of that column selected gives the frame back, unchanged. *)
Theorem filter_all_values_noop (df : DataFrame) (c : label) :
  wf_frame df -> In c (columns df) ->
  exists col, getitem df c = Some col
              /\ filter_isin df c (unique col) = Some df.
Proof.
  intros Hwf Hc. destruct (getitem_In df c Hc) as [col [Hg _]].
  exists col. split; [assumption|]. now apply filter_isin_unique.
Qed.

Lemma fill_missing_by_design_witness :
  wf_frame sample_frame
  /\ fill_missing sample_frame
     = (update_where (has_dtype number) fill_with_mean sample_frame, true).
Proof.
  split; [reflexivity|].
  destruct (fill_missing_by_design sample_frame eq_refl) as [_ [H _]].
  apply H. reflexivity.
Defined.

Lemma drop_duplicates_keeps_first_witness :
  wf_frame frame_with_duplicates
  /\ drop_duplicates (drop_duplicates frame_with_duplicates)
     = drop_duplicates frame_with_duplicates.
Proof.
  split; [reflexivity|].
  apply (drop_duplicates_keeps_first frame_with_duplicates). reflexivity.
Defined.

Lemma filter_all_values_noop_witness :
  wf_frame sample_frame /\ In (LStr "age") (columns sample_frame)
  /\ exists col, getitem sample_frame (LStr "age") = Some col
                 /\ filter_isin sample_frame (LStr "age") (unique col)
                    = Some sample_frame.
Proof.
  split; [reflexivity|]. split; [simpl; tauto|].
  apply (filter_all_values_noop sample_frame (LStr "age")).
  - reflexivity.
  - simpl. tauto.
Defined.

Lemma locals_eta (l : Locals) : mkLocals (file_name l) (file_ext l) (df l) = l.
Proof. destruct l; reflexivity. Qed.

(** In the script: when the select box names a column of the frame, the
    multiselect accepts its default and is left at it (all the distinct
    values), the filter step leaves the variables as they were. *)
Lemma filter_step_default (w : Widgets) (l : Locals) (c : label) (col : Series) :
  wf_frame (df l) ->
  selectbox w ("Select Column to Filter " ++ file_name l) (columns (df l)) = Some c ->
  getitem (df l) c = Some col ->
  default_in_options col = true ->
  multiselect w ("Choose values from " ++ label_str c) (unique col) (unique col)
    = unique col ->
  filter_step w l
  = ([st_subheader "📌 Filter Data";
      st_selectbox ("Select Column to Filter " ++ file_name l) (columns (df l));
      st_multiselect ("Choose values from " ++ label_str c)
                     (unique col) (unique col)], Ok tt l).
Proof.
  intros Hwf Hsel Hget Hdef Hms.
  pose proof (filter_isin_unique (df l) c col Hwf Hget) as Hf.
  unfold filter_step, ask_selectbox, ask_multiselect, bind, get, emit, ret.
  cbv beta iota.
  rewrite Hsel, Hget, Hdef. cbv beta iota. rewrite Hms, Hf.
  unfold set_df. cbv beta iota.
  now rewrite locals_eta.
Qed.

(** *** The scenario of the specification *)

(** C2.  The text [name,age / Alice,30 / Bob, / Alice,30] is read as
    three rows; removing duplicates drops the second Alice row; filling
    then puts the mean of the ages left, 30, in Bob's row: the result is
    the two rows (Alice, 30), (Bob, 30).  The cleaning step of the script
    does the two in that order, between the calls of its widgets. *)
Theorem scenario_dedup_then_fill :
  read_csv scenario_text = Some scenario_frame
  /\ drop_duplicates scenario_frame
     = [ mkSeries (LStr "name") object [Str "Alice"; Str "Bob"];
         mkSeries (LStr "age") number [Num (Q2Qc 30); NaN] ]
  /\ mean [Num (Q2Qc 30); NaN] = Some (Q2Qc 30)
  /\ fill_missing (drop_duplicates scenario_frame) = (scenario_result, true)
  /\ rows scenario_result
     = [ [Str "Alice"; Num (Q2Qc 30)]; [Str "Bob"; Num (Q2Qc 30)] ]
  /\ clean_step scenario_widgets (mkLocals "people.csv" ".csv" scenario_frame)
     = ([st_checkbox "🧹 Clean & Transform Data for people.csv";
         st_button "Remove Duplicates from people.csv";
         st_success "✅ Duplicates Removed!";
         st_button "Convert Text Columns to Lowercase for people.csv";
         st_button "Fill Missing Values for people.csv";
         st_success "✅ Missing Values Filled!";
         st_button "Remove Special Characters from people.csv"],
        Ok tt (mkLocals "people.csv" ".csv" scenario_result)).
Proof. repeat split; vm_compute; reflexivity. Qed.

(** *** The loop over the uploads *)

Lemma for_each_file_cons (w : Widgets) (env : Env) (page : list event)
  (file : UploadedFile) (rest : list UploadedFile) :
  for_each_file w env page (file :: rest)
  = and_then (process_file w env page file)
             (fun out => for_each_file w env (page ++ out) rest).
Proof.
  simpl. destruct (process_file w env page file) as [out [e|]]; reflexivity.
Qed.

(** The run over a list of uploads is the run over its first part
    followed by the run over the rest, on the page the first part has
    left. *)
Lemma for_each_file_app (w : Widgets) (env : Env) (l1 l2 : list UploadedFile)
  (page : list event) :
  for_each_file w env page (l1 ++ l2)
  = and_then (for_each_file w env page l1)
             (fun out => for_each_file w env (page ++ out) l2).
Proof.
  revert page. induction l1 as [|f l1 IH]; intros page.
  - simpl. rewrite List.app_nil_r.
    now destruct (for_each_file w env page l2).
  - rewrite <- app_comm_cons, !for_each_file_cons.
    destruct (process_file w env page f) as [out [e|]]; simpl; [reflexivity|].
    rewrite IH.
    destruct (for_each_file w env (page ++ out) l1) as [out1 [e|]]; simpl;
      [reflexivity|].
    rewrite <- !app_assoc.
    destruct (for_each_file w env (page ++ out ++ out1) l2) as [out2 r].
    now rewrite app_assoc.
Qed.

Lemma event_eqb_eq (a b : event) : event_eqb a b = true <-> a = b.
Proof. unfold event_eqb. destruct (event_eq_dec a b); split; congruence. Qed.

(** Whether a call clashes depends on the widgets of the page only. *)
Lemma clash_widgets (page : list event) (e : event) :
  clash page e = clash (filter is_widget page) e.
Proof.
  unfold clash. destruct (is_widget e) eqn:He; [simpl | reflexivity].
  induction page as [|a page IH]; simpl; [reflexivity|].
  destruct (is_widget a) eqn:Ha; simpl.
  - now rewrite IH.
  - rewrite IH. destruct (event_eqb e a) eqn:E; [|reflexivity].
    apply event_eqb_eq in E. congruence.
Qed.

Lemma put_widgets (out page1 page2 : list event) :
  filter is_widget page1 = filter is_widget page2 ->
  put page1 out = put page2 out.
Proof.
  revert page1 page2. induction out as [|e out IH]; intros p1 p2 H; simpl;
    [reflexivity|].
  rewrite (clash_widgets p1), (clash_widgets p2), H.
  destruct (clash (filter is_widget p2) e); [reflexivity|].
  rewrite (IH (p1 ++ [e]) (p2 ++ [e])); [reflexivity|].
  now rewrite !filter_app, H.
Qed.

Lemma process_file_widgets (w : Widgets) (env : Env) (file : UploadedFile)
  (page1 page2 : list event) :
  filter is_widget page1 = filter is_widget page2 ->
  process_file w env page1 file = process_file w env page2 file.
Proof.
  intros H. unfold process_file.
  destruct (load env file) as [msg|[d|]]; try reflexivity.
  destruct (body w env file _) as [out r].
  now rewrite (put_widgets out page1 page2 H).
Qed.

(** What has been written on the page besides widgets is of no
    consequence for the passes to come. *)
Lemma for_each_file_widgets (w : Widgets) (env : Env) (files : list UploadedFile)
  (page1 page2 : list event) :
  filter is_widget page1 = filter is_widget page2 ->
  for_each_file w env page1 files = for_each_file w env page2 files.
Proof.
  revert page1 page2. induction files as [|f files IH]; intros p1 p2 H; simpl;
    [reflexivity|].
  rewrite (process_file_widgets w env f p1 p2 H).
  destruct (process_file w env p2 f) as [out [e|]]; [reflexivity|].
  rewrite (IH (p1 ++ out) (p2 ++ out)); [reflexivity|].
  now rewrite !filter_app, H.
Qed.

(** C1.  A file whose lowercased extension is neither [.csv] nor [.xlsx]
    is refused: no frame is loaded for it; on whatever page, its pass
    writes an error message and nothing else and does not raise; and the
    run over the files before and after it is the run without it, with
    the error message between what the files before it and the files
    after it write.  The files after it meet the page they meet without
    it.  The message shows the extension in lower case (for a name of
    ASCII characters, on which [lower] is [str.lower()]). *)
Theorem unsupported_file_skipped (w : Widgets) (env : Env) (file : UploadedFile) :
  let ext := lower (snd (splitext (name file))) in
  String.eqb ext ".csv" = false ->
  String.eqb ext ".xlsx" = false ->
  exists msg,
    load env file = inl msg
    /\ (ascii_only (name file) = true ->
        msg = ("❌ Unsupported file format: " ++ ext)%string)
    /\ (forall page, process_file w env page file = ([st_error msg], None))
    /\ forall page before after,
         for_each_file w env page (before ++ file :: after)
         = and_then (for_each_file w env page before)
             (fun out =>
                and_then ([st_error msg], None)
                  (fun _ => for_each_file w env (page ++ out) after))
         /\ for_each_file w env page (before ++ after)
            = and_then (for_each_file w env page before)
                (fun out => for_each_file w env (page ++ out) after).
Proof.
  intros ext Hcsv Hxlsx.
  exists ("❌ Unsupported file format: " ++ ext)%string.
  set (msg := ("❌ Unsupported file format: " ++ ext)%string).
  assert (Hload : load env file = inl msg).
  { unfold load. fold ext. now rewrite Hcsv, Hxlsx. }
  assert (Hproc : forall page,
             process_file w env page file = ([st_error msg], None)).
  { intros page. unfold process_file. now rewrite Hload. }
  split; [assumption|]. split; [reflexivity|]. split; [assumption|].
  intros page before after. split; [|apply for_each_file_app].
  rewrite for_each_file_app.
  destruct (for_each_file w env page before) as [out [e|]]; simpl;
    [reflexivity|].
  rewrite Hproc.
  rewrite (for_each_file_widgets w env after
             ((page ++ out) ++ [st_error msg]) (page ++ out)); [reflexivity|].
  rewrite filter_app. simpl. apply List.app_nil_r.
Qed.

Lemma unsupported_file_skipped_witness :
  String.eqb (lower (snd (splitext (name notes_txt)))) ".csv" = false
  /\ String.eqb (lower (snd (splitext (name notes_txt)))) ".xlsx" = false
  /\ exists msg,
       load sample_env notes_txt = inl msg
       /\ msg = "❌ Unsupported file format: .txt"
       /\ process_file idle_widgets sample_env [] notes_txt
          = ([st_error msg], None).
Proof.
  split; [reflexivity|]. split; [reflexivity|].
  destruct (unsupported_file_skipped idle_widgets sample_env notes_txt
              eq_refl eq_refl) as [msg [Hl [Hm [Hp _]]]].
  exists msg. split; [exact Hl|]. split; [exact (Hm eq_refl) | apply Hp].
Defined.

(** *** Convert and download *)

Lemma append_empty_r (s : string) : (s ++ "")%string = s.
Proof. induction s as [|c s IH]; simpl; congruence. Qed.

(** Writing into a new buffer leaves exactly the bytes written. *)
Lemma write_new_buffer (data : string) :
  getvalue (seek (write BytesIO_new data) 0) = data.
Proof.
  unfold write, BytesIO_new, slice_to, slice_from. simpl.
  destruct (String.length data); simpl; apply append_empty_r.
Qed.

Lemma convert_run (env : Env) (conversion_type : string) (l : Locals) :
  convert env conversion_type l
  = ([download_of env conversion_type l], Ok tt l).
Proof.
  unfold convert, download_of, bind, get, emit. cbv beta iota.
  destruct (String.eqb conversion_type "CSV"); cbv beta iota zeta;
    rewrite write_new_buffer; reflexivity.
Qed.

Lemma bind_ext_r {A B : Type} (m : Script A) (k1 k2 : A -> Script B)
  (l : Locals) :
  (forall a l', k1 a l' = k2 a l') -> bind m k1 l = bind m k2 l.
Proof.
  intros H. unfold bind. destruct (m l) as [out [a l'|e]]; [|reflexivity].
  now rewrite H.
Qed.

(** With CSV as the target, a pass does not depend on the time at which
    it happens. *)
Lemma body_at (lib : Library) (w : Widgets) (tmp : string) (t1 t2 : N)
  (file : UploadedFile) (l : Locals) :
  (forall text options key, radio w text options key = "CSV") ->
  body w (env_at lib t1 tmp) file l = body w (env_at lib t2 tmp) file l.
Proof.
  intros Hr. unfold body.
  do 5 (apply bind_ext_r; intros _ ?).
  apply bind_ext_r. intros _ l6.
  unfold convert_step, ask_radio, ask_button, bind, get, emit, ret.
  cbv beta iota. rewrite Hr. reflexivity.
Qed.

Lemma for_each_file_at (lib : Library) (w : Widgets) (tmp : string) (t1 t2 : N)
  (files : list UploadedFile) (page : list event) :
  (forall text options key, radio w text options key = "CSV") ->
  for_each_file w (env_at lib t1 tmp) page files
  = for_each_file w (env_at lib t2 tmp) page files.
Proof.
  intros Hr. revert page. induction files as [|f files IH]; intros page;
    [reflexivity|].
  simpl.
  assert (Hp : process_file w (env_at lib t1 tmp) page f
               = process_file w (env_at lib t2 tmp) page f).
  { unfold process_file.
    change (load (env_at lib t1 tmp) f) with (load (env_at lib t2 tmp) f).
    destruct (load (env_at lib t2 tmp) f) as [msg|[d|]]; try reflexivity.
    now rewrite (body_at lib w tmp t1 t2 f _ Hr). }
  rewrite Hp. destruct (process_file w (env_at lib t2 tmp) page f)
    as [out [e|]]; [reflexivity|].
  now rewrite IH.
Qed.




(** *** The name of the download *)

(** C8, at a failing input.  The upload [Sales.CSV] passes the extension
    test ([file_ext] is the lowercased [.csv]); converted to Excel, the
    download is named [Sales.CSV], not [Sales.xlsx]: the name still has
    the upper-case extension, which the replacement of [.csv] does not
    find.  The MIME type is the spreadsheet one. *)
Theorem download_name_upper_case_extension :
  filter is_download
    (fst (main (convert_widgets "Excel") sample_env
               [mkUploadedFile "Sales.CSV" 8 small_csv]))
  = [st_download_button "⬇️ Download Sales.CSV" (to_excel sample_env small_frame)
                        "Sales.CSV" xlsx_mime].
Proof. vm_compute. reflexivity. Qed.

(** The replacement rewrites every occurrence of the extension, not the
    last one only. *)
Lemma download_name_repeated_extension :
  filter is_download
    (fst (main (convert_widgets "Excel") sample_env
               [mkUploadedFile "data.csv.csv" 8 small_csv]))
  = [st_download_button "⬇️ Download data.xlsx.xlsx" (to_excel sample_env small_frame)
                        "data.xlsx.xlsx" xlsx_mime].
Proof. vm_compute. reflexivity. Qed.

(** Once the report has been generated, [file] is the temporary file:
    the download carries that file's name. *)
Lemma download_name_after_report :
  filter is_download
    (fst (main (report_and_convert_widgets "Excel") sample_env
               [mkUploadedFile "data.csv" 8 small_csv]))
  = [st_download_button "⬇️ Download /tmp/tmpk3v9x2ab.html" "xlsx bytes"
                        "/tmp/tmpk3v9x2ab.html" xlsx_mime].
Proof. vm_compute. reflexivity. Qed.

(** For a plain lower-case name the download is named as expected. *)
Lemma download_name_plain :
  filter is_download
    (fst (main (convert_widgets "Excel") sample_env
               [mkUploadedFile "data.csv" 8 small_csv]))
  = [st_download_button "⬇️ Download data.xlsx" (to_excel sample_env small_frame)
                        "data.xlsx" xlsx_mime]
  /\ filter is_download
       (fst (main (convert_widgets "CSV") sample_env
                  [mkUploadedFile "data.csv" 8 small_csv]))
     = [st_download_button "⬇️ Download data.csv" (to_csv sample_env small_frame)
                           "data.csv" "text/csv"].
Proof. split; vm_compute; reflexivity. Qed.

(** The test on the labels of the numeric columns: a single numeric
    column labelled with the number 0 (an Excel sheet whose header cell
    holds 0) is taken for no numeric column at all. *)
Lemma fill_missing_label_zero :
  let df0 := [mkSeries (LInt 0) number [Num (Q2Qc 1); NaN; Num (Q2Qc 3)]] in
  select_dtypes number df0 = df0 /\ fill_missing df0 = (df0, false).
Proof. split; reflexivity. Qed.

(** *** Writing CSV text and reading it back *)

(** *** Splitting and joining *)

Lemma append_assoc (a b c : string) : ((a ++ b) ++ c = a ++ (b ++ c))%string.
Proof. induction a as [|x a IH]; simpl; congruence. Qed.

Lemma split_acc_free (sep : ascii) (s acc rest : string) :
  free_of sep s = true ->
  split_acc sep acc (s ++ rest) = split_acc sep (acc ++ s) rest.
Proof.
  revert acc. induction s as [|c s IH]; intros acc H; simpl in *.
  - now rewrite append_empty_r.
  - apply andb_true_iff in H. destruct H as [Hc Hs].
    apply negb_true_iff in Hc. rewrite Hc, IH by assumption.
    now rewrite append_assoc.
Qed.

Lemma split_acc_sep (sep : ascii) (acc rest : string) :
  split_acc sep acc (String sep rest) = acc :: split_acc sep EmptyString rest.
Proof. simpl. now rewrite Ascii.eqb_refl. Qed.

Lemma split_acc_end (sep : ascii) (acc s : string) :
  free_of sep s = true -> split_acc sep acc s = [(acc ++ s)%string].
Proof.
  intros H. rewrite <- (append_empty_r s) at 1.
  now rewrite split_acc_free.
Qed.

Lemma split_acc_join (sep : ascii) (fs : list string) (f acc : string) :
  forallb (free_of sep) (f :: fs) = true ->
  split_acc sep acc (join sep (f :: fs)) = (acc ++ f)%string :: fs.
Proof.
  revert f acc. induction fs as [|g gs IH]; intros f acc H.
  - simpl in *. rewrite andb_true_r in H. now apply split_acc_end.
  - change (join sep (f :: g :: gs))
      with (f ++ String sep (join sep (g :: gs)))%string.
    simpl forallb in H. apply andb_true_iff in H. destruct H as [Hf H].
    rewrite split_acc_free, split_acc_sep by assumption.
    f_equal. now rewrite IH.
Qed.

(** Splitting a joined line gives the fields back. *)
Lemma split_join (sep : ascii) (f : string) (fs : list string) :
  forallb (free_of sep) (f :: fs) = true ->
  split sep (join sep (f :: fs)) = f :: fs.
Proof. intros H. unfold split. now rewrite split_acc_join. Qed.

Lemma free_of_append (sep : ascii) (a b : string) :
  free_of sep (a ++ b) = free_of sep a && free_of sep b.
Proof.
  induction a as [|c a IH]; simpl; [reflexivity|].
  now rewrite IH, andb_assoc.
Qed.

Lemma free_of_join (sep other : ascii) (fs : list string) :
  Ascii.eqb other sep = false ->
  forallb (free_of sep) fs = true -> free_of sep (join other fs) = true.
Proof.
  intros Hne. induction fs as [|f fs IH]; intros H; [reflexivity|].
  simpl forallb in H. apply andb_true_iff in H. destruct H as [Hf H].
  destruct fs as [|g gs]; [exact Hf|].
  change (join other (f :: g :: gs))
    with (f ++ String other (join other (g :: gs)))%string.
  rewrite free_of_append, Hf. simpl. rewrite Hne. simpl. now apply IH.
Qed.

(** Splitting the written text at the line feeds gives the lines, and an
    empty string after the last line feed. *)
Lemma split_write_lines (records : list (list string)) :
  forallb (fun r => free_of LF (join "," r)) records = true ->
  split LF (write_lines records) = map (join ",") records ++ [EmptyString].
Proof.
  unfold split. induction records as [|r rs IH]; intros H; [reflexivity|].
  simpl in H. apply andb_true_iff in H. destruct H as [Hr H].
  simpl write_lines. rewrite split_acc_free, split_acc_sep by assumption.
  simpl. f_equal. now apply IH.
Qed.

Lemma filter_nonempty_lines (lines : list string) :
  forallb (fun l => negb (String.eqb l EmptyString)) lines = true ->
  filter (fun l => negb (String.eqb l EmptyString)) (lines ++ [EmptyString])
  = lines.
Proof.
  induction lines as [|l ls IH]; intros H; [reflexivity|].
  simpl in *. apply andb_true_iff in H. destruct H as [Hl H].
  rewrite Hl. f_equal. now apply IH.
Qed.

(** *** Whole numbers in decimal notation *)

Lemma of_lu_rev_cons (d : uint) (k : N) (Dk : uint -> uint) :
  (forall l, Unsigned.of_lu (Dk l) = k + 10 * Unsigned.of_lu l)%N ->
  (forall l l', revapp (Dk l) l' = revapp l (Dk l')) ->
  (Unsigned.of_lu (rev (Dk d))
   = Unsigned.of_lu (rev d) + k * 10 ^ Unsigned.usize d)%N.
Proof.
  intros Hk Hrev. unfold rev at 1. rewrite Hrev, Unsigned.of_lu_revapp, Hk.
  simpl. now rewrite N.add_0_r.
Qed.

Lemma digits_value_digit (acc k : Z) (c : ascii) (s : string) :
  is_digit c = true -> Z.of_nat (nat_of_ascii c - 48) = k ->
  digits_value acc (String c s) = digits_value (10 * acc + k) s.
Proof. intros Hc Hk. simpl. now rewrite Hc, Hk. Qed.

Ltac digits_step IH d k D :=
  simpl NilEmpty.string_of_uint;
  rewrite (digits_value_digit _ (Z.of_N k)) by reflexivity;
  rewrite IH; f_equal;
  simpl Unsigned.usize; rewrite N2Z.inj_succ, Z.pow_succ_r by lia;
  rewrite (of_lu_rev_cons d k D (fun l => eq_refl) (fun l l' => eq_refl));
  rewrite N2Z.inj_add, N2Z.inj_mul, N2Z.inj_pow; lia.

Lemma digits_value_uint (d : uint) (acc : Z) :
  digits_value acc (NilEmpty.string_of_uint d)
  = Some (acc * 10 ^ Z.of_N (Unsigned.usize d)
          + Z.of_N (Unsigned.of_lu (rev d)))%Z.
Proof.
  revert acc. induction d; intros acc.
  - simpl. f_equal. lia.
  - digits_step IHd d 0%N D0.
  - digits_step IHd d 1%N D1.
  - digits_step IHd d 2%N D2.
  - digits_step IHd d 3%N D3.
  - digits_step IHd d 4%N D4.
  - digits_step IHd d 5%N D5.
  - digits_step IHd d 6%N D6.
  - digits_step IHd d 7%N D7.
  - digits_step IHd d 8%N D8.
  - digits_step IHd d 9%N D9.
Qed.

Lemma digits_value_pos (p : positive) :
  digits_value 0 (NilEmpty.string_of_uint (Pos.to_uint p)) = Some (Z.pos p).
Proof.
  rewrite digits_value_uint, <- Unsigned.of_uint_alt, Unsigned.of_to.
  reflexivity.
Qed.

Lemma string_of_uint_digits (d : uint) :
  all_digits (NilEmpty.string_of_uint d) = true.
Proof. induction d; simpl; auto. Qed.

Lemma string_of_uint_nonempty (d : uint) :
  d <> Nil -> exists c s, NilEmpty.string_of_uint d = String c s /\ is_digit c = true.
Proof. destruct d; intros H; [congruence | ..]; simpl; eauto. Qed.

Lemma all_digits_free (sep : ascii) (s : string) :
  is_digit sep = false -> all_digits s = true -> free_of sep s = true.
Proof.
  intros Hsep. induction s as [|c s IH]; simpl; [reflexivity|].
  intros H. apply andb_true_iff in H. destruct H as [Hc Hs].
  rewrite IH by assumption. rewrite andb_true_r. apply negb_true_iff.
  destruct (Ascii.eqb c sep) eqn:E; [|reflexivity].
  apply Ascii.eqb_eq in E. congruence.
Qed.

Lemma Z_text_sign (z : Z) :
  Z_text z = if (z <? 0)%Z then String "-" (N_text z) else N_text z.
Proof.
  destruct z as [|p|p]; try reflexivity;
    unfold Z_text; simpl; unfold NilZero.string_of_uint;
    pose proof (Unsigned.to_uint_nonnil p);
    destruct (Pos.to_uint p); congruence.
Qed.

Lemma N_text_digits (z : Z) :
  all_digits (N_text z) = true
  /\ (exists c s, N_text z = String c s /\ is_digit c = true)
  /\ digits_value 0 (N_text z) = Some (Z.abs z).
Proof.
  destruct z as [|p|p]; simpl.
  - repeat split. eauto.
  - split; [apply string_of_uint_digits|]. split.
    + apply string_of_uint_nonempty, Unsigned.to_uint_nonnil.
    + apply digits_value_pos.
  - split; [apply string_of_uint_digits|]. split.
    + apply string_of_uint_nonempty, Unsigned.to_uint_nonnil.
    + apply digits_value_pos.
Qed.

Lemma Qc_of_whole (q : Qc) :
  Qden q = 1%positive -> Q2Qc (inject_Z (Qnum q)) = q.
Proof.
  intros H. apply Qc_is_canon.
  transitivity (inject_Z (Qnum q)); [apply Qred_correct|].
  destruct q as [[n d] Hc]. simpl in *. subst d. reflexivity.
Qed.

Lemma parse_number_digit_first (c : ascii) (s : string) :
  is_digit c = true \/ is_letter c = true ->
  parse_number (String c s) = unsigned_number (String c s).
Proof.
  destruct c as [[] [] [] [] [] [] [] []]; intros [H|H];
    try discriminate H; reflexivity.
Qed.

Lemma unsigned_number_whole (z : Z) :
  unsigned_number (N_text z) = Some (Q2Qc (inject_Z (Z.abs z))).
Proof.
  destruct (N_text_digits z) as [Hd [[c [s Hs]] Hv]].
  unfold unsigned_number, split.
  rewrite split_acc_end
    by (apply all_digits_free; [reflexivity | assumption]).
  destruct Hs as [Hs _]. rewrite Hs in *. cbn [append]. cbv beta iota.
  rewrite Hv. reflexivity.
Qed.

Lemma unsigned_number_point_zero (z : Z) :
  unsigned_number (N_text z ++ ".0") = Some (Q2Qc (inject_Z (Z.abs z))).
Proof.
  destruct (N_text_digits z) as [Hd [[c [s Hs]] Hv]].
  unfold unsigned_number, split.
  rewrite split_acc_free
    by (apply all_digits_free; [reflexivity | assumption]).
  rewrite split_acc_sep.
  change (split_acc "." EmptyString "0") with ["0"].
  destruct Hs as [Hs _]. rewrite Hs in *. cbn [append]. cbv beta iota.
  rewrite Hv.
  change (digits_value 0 "0") with (Some 0%Z). cbv iota.
  f_equal. apply Q2Qc_eq_iff.
  change (inject_Z 0 / inject_Z (10 ^ Z.of_nat (String.length "0")))%Q
    with (0 / inject_Z 10)%Q.
  unfold Qdiv. rewrite Qmult_0_l. apply Qplus_0_r.
Qed.

Lemma Qcopp_whole (z : Z) :
  (z < 0)%Z -> Qcopp (Q2Qc (inject_Z (Z.abs z))) = Q2Qc (inject_Z z).
Proof.
  intros Hz. unfold Qcopp. apply Q2Qc_eq_iff.
  change (this (Q2Qc (inject_Z (Z.abs z)))) with (Qred (inject_Z (Z.abs z))).
  rewrite Qred_correct, Z.abs_neq by lia.
  unfold Qeq, Qopp, inject_Z. simpl. lia.
Qed.

(** Reading a whole number as it is written gives the number back. *)
Lemma parse_number_text (q : Qc) (as_float : bool) :
  Qden q = 1%positive ->
  parse_number (Z_text (Qnum q) ++ (if as_float then ".0" else "")) = Some q.
Proof.
  intros Hden.
  assert (Hu : unsigned_number (N_text (Qnum q) ++ (if as_float then ".0" else ""))
               = Some (Q2Qc (inject_Z (Z.abs (Qnum q))))).
  { destruct as_float; [apply unsigned_number_point_zero|].
    rewrite append_empty_r. apply unsigned_number_whole. }
  rewrite Z_text_sign. destruct (Qnum q <? 0)%Z eqn:E.
  - cbn [append parse_number]. rewrite Hu. cbn [option_map]. f_equal.
    apply Z.ltb_lt in E. rewrite Qcopp_whole by assumption.
    now apply Qc_of_whole.
  - destruct (N_text_digits (Qnum q)) as [_ [[c [s [Hs Hc]]] _]].
    rewrite Hs in *. simpl append.
    rewrite parse_number_digit_first by now left.
    simpl append in Hu. rewrite Hu. f_equal.
    apply Z.ltb_ge in E. rewrite Z.abs_eq by assumption.
    now apply Qc_of_whole.
Qed.

(** *** What is read as missing *)

Ltac na_cases H :=
  unfold is_na, na_values in H; simpl existsb in H;
  repeat (apply orb_prop in H; destruct H as [H|H]);
  try discriminate H; apply String.eqb_eq in H; subst.

Lemma num_chars_not_na (s : string) :
  num_chars s = true -> s <> EmptyString -> is_na s = false.
Proof.
  intros Hn Hne. apply not_true_is_false. intros H.
  na_cases H; try discriminate Hn; congruence.
Qed.

Lemma num_chars_append (a b : string) :
  num_chars (a ++ b) = num_chars a && num_chars b.
Proof.
  induction a as [|c a IH]; simpl; [reflexivity|].
  now rewrite IH, andb_assoc.
Qed.

Lemma all_digits_num_chars (s : string) :
  all_digits s = true -> num_chars s = true.
Proof.
  induction s as [|c s IH]; simpl; [reflexivity|].
  intros H. apply andb_true_iff in H. destruct H as [Hc Hs].
  unfold num_char. now rewrite Hc, IH.
Qed.

Lemma number_text_not_na (z : Z) (as_float : bool) :
  is_na (Z_text z ++ (if as_float then ".0" else "")) = false.
Proof.
  destruct (N_text_digits z) as [Hd [[c [s [Hs _]]] _]].
  apply num_chars_not_na.
  - rewrite num_chars_append, Z_text_sign.
    destruct (z <? 0)%Z; simpl; rewrite all_digits_num_chars by assumption;
      now destruct as_float.
  - rewrite Z_text_sign. destruct (z <? 0)%Z; [discriminate|].
    rewrite Hs. discriminate.
Qed.

Lemma number_text_plain (z : Z) (as_float : bool) :
  free_of "," (Z_text z ++ (if as_float then ".0" else "")) = true
  /\ free_of LF (Z_text z ++ (if as_float then ".0" else "")) = true.
Proof.
  destruct (N_text_digits z) as [Hd _].
  pose proof (all_digits_free "," (N_text z) eq_refl Hd) as H1.
  pose proof (all_digits_free LF (N_text z) eq_refl Hd) as H2.
  rewrite !free_of_append, Z_text_sign.
  destruct (z <? 0)%Z; cbn [free_of]; rewrite H1, H2;
    now destruct as_float.
Qed.

(** *** Strings that stay strings *)

Lemma split_acc_head (sep : ascii) (s acc : string) :
  exists w tl, split_acc sep acc s = (acc ++ w)%string :: tl.
Proof.
  revert acc. induction s as [|c s IH]; intros acc; simpl.
  - exists EmptyString, []. now rewrite append_empty_r.
  - destruct (Ascii.eqb c sep).
    + exists EmptyString, (split_acc sep EmptyString s).
      now rewrite append_empty_r.
    + destruct (IH (acc ++ String c EmptyString)%string) as [w [tl H]].
      exists (String c w), tl. rewrite H, append_assoc. reflexivity.
Qed.

Lemma letter_not_digit (c : ascii) : is_letter c = true -> is_digit c = false.
Proof.
  destruct c as [[] [] [] [] [] [] [] []]; intros H;
    try discriminate H; reflexivity.
Qed.

Lemma letter_not_point (c : ascii) : is_letter c = true -> Ascii.eqb c "." = false.
Proof.
  destruct c as [[] [] [] [] [] [] [] []]; intros H;
    try discriminate H; reflexivity.
Qed.

Lemma wordlike_not_number (s : string) :
  wordlike s = true -> parse_number s = None.
Proof.
  destruct s as [|c s]; [discriminate|]. unfold wordlike.
  intros H. apply andb_true_iff in H. destruct H as [H _].
  apply andb_true_iff in H. destruct H as [Hc _].
  rewrite parse_number_digit_first by now right.
  unfold unsigned_number, split. simpl split_acc.
  rewrite (letter_not_point c Hc).
  destruct (split_acc_head "." s (String c EmptyString)) as [w [tl ->]].
  simpl append. destruct tl as [|f [|g tl]]; try reflexivity.
  - simpl. now rewrite (letter_not_digit c Hc).
  - cbn [digits_value]. rewrite (letter_not_digit c Hc).
    destruct f; reflexivity.
Qed.

Lemma wordlike_not_bool (s : string) :
  wordlike s = true -> parse_bool s = None.
Proof.
  intros H. unfold parse_bool.
  destruct (existsb (String.eqb s) ["True"; "TRUE"; "true"]) eqn:E1.
  - simpl in E1. repeat (apply orb_prop in E1; destruct E1 as [E1|E1]);
      try discriminate E1; apply String.eqb_eq in E1; subst; discriminate H.
  - destruct (existsb (String.eqb s) ["False"; "FALSE"; "false"]) eqn:E2;
      [|reflexivity].
    simpl in E2. repeat (apply orb_prop in E2; destruct E2 as [E2|E2]);
      try discriminate E2; apply String.eqb_eq in E2; subst; discriminate H.
Qed.

Lemma wordlike_not_na (s : string) : wordlike s = true -> is_na s = false.
Proof.
  destruct s as [|c s]; [discriminate|]. unfold wordlike. intros H.
  apply andb_true_iff in H. destruct H as [_ H]. now apply negb_true_iff.
Qed.

Lemma plain_free (s : string) :
  plain s = true -> free_of "," s = true /\ free_of LF s = true.
Proof.
  induction s as [|c s IH]; simpl; [auto|].
  intros H. apply andb_true_iff in H. destruct H as [Hc Hs].
  destruct (IH Hs) as [-> ->]. unfold plain_char in Hc.
  apply negb_true_iff in Hc. apply orb_false_iff in Hc. destruct Hc as [Hc _].
  apply orb_false_iff in Hc. destruct Hc as [Hc Hlf].
  apply orb_false_iff in Hc. destruct Hc as [Hcomma _].
  now rewrite Hcomma, Hlf.
Qed.

(** *** One column, written and read back *)

Lemma sequence_map {A B : Type} (f : A -> option B) (g : A -> B) (l : list A) :
  (forall x, In x l -> f x = Some (g x)) ->
  sequence (map f l) = Some (map g l).
Proof.
  induction l as [|a l IH]; intros H; [reflexivity|].
  simpl. rewrite (H a) by now left.
  rewrite IH by (intros x Hx; apply H; now right). reflexivity.
Qed.

Lemma forallb_false_ex {A : Type} (p : A -> bool) (l : list A) (x : A) :
  In x l -> p x = false -> forallb p l = false.
Proof.
  intros Hin Hp. apply not_true_is_false. intros H.
  rewrite forallb_forall in H. rewrite (H x Hin) in Hp. discriminate.
Qed.

Lemma safe_cell_text (d : dtype) (as_float : bool) (c : cell) :
  safe_cell d c = true -> cell_text as_float c = Some (cell_str as_float c).
Proof.
  unfold cell_str. destruct d, c; simpl; try discriminate; try reflexivity.
  - intros H. apply andb_true_iff in H. destruct H as [-> _]. reflexivity.
  - intros H. apply andb_true_iff in H. destruct H as [-> _]. reflexivity.
Qed.

Lemma safe_cell_free (d : dtype) (as_float : bool) (c : cell) :
  safe_cell d c = true ->
  free_of "," (cell_str as_float c) = true
  /\ free_of LF (cell_str as_float c) = true.
Proof.
  unfold cell_str. destruct d, c; simpl; try discriminate; auto.
  - intros H. apply andb_true_iff in H. destruct H as [-> _].
    apply number_text_plain.
  - intros H. apply andb_true_iff in H. destruct H as [Hp _].
    rewrite Hp. now apply plain_free.
  - destruct b; auto.
Qed.

Lemma safe_cell_nonempty (d : dtype) (as_float : bool) (c : cell) :
  safe_cell d c = true -> is_nan c = false ->
  cell_str as_float c <> EmptyString.
Proof.
  unfold cell_str. destruct d, c; simpl; try discriminate.
  - intros H _. apply andb_true_iff in H. destruct H as [-> _].
    intros E. pose proof (number_text_not_na (Qnum q) as_float) as Hna.
    rewrite E in Hna. discriminate.
  - intros H _. apply andb_true_iff in H. destruct H as [Hp Hna].
    rewrite Hp. intros ->. discriminate.
  - destruct b; discriminate.
Qed.

(** What the reader makes of the text of a safe cell. *)
Lemma safe_number_read (as_float : bool) (c : cell) :
  safe_number c = true ->
  let f := cell_str as_float c in
  (is_na f = true /\ c = NaN)
  \/ (is_na f = false /\ exists q, c = Num q /\ parse_number f = Some q).
Proof.
  unfold cell_str. destruct c; cbn [safe_number cell_text]; try discriminate;
    auto.
  intros H. apply andb_true_iff in H. destruct H as [Hd _].
  rewrite Hd. right. split.
  - apply number_text_not_na.
  - exists q. split; [reflexivity|].
    apply Pos.eqb_eq in Hd. now apply parse_number_text.
Qed.

Lemma infer_number_column (l : label) (as_float : bool) (vals : list cell) :
  vals <> [] -> forallb safe_number vals = true ->
  infer_column l (map (cell_str as_float) vals) = mkSeries l number vals.
Proof.
  intros Hne Hsafe. unfold infer_column.
  rewrite length_map.
  destruct vals as [|v0 vals0] eqn:Ev; [congruence|]. rewrite <- Ev in *.
  replace (length vals =? 0)%nat with false by (now subst vals).
  clear Ev Hne v0 vals0.
  replace (forallb _ (filter _ (map (cell_str as_float) vals))) with true.
  - f_equal. rewrite map_map. rewrite <- (map_id vals) at 2.
    apply map_ext_in. intros c Hc. rewrite forallb_forall in Hsafe.
    destruct (safe_number_read as_float c (Hsafe c Hc))
      as [[Hna ->]|[Hna [q [-> Hq]]]]; cbv zeta in *.
    + reflexivity.
    + now rewrite Hq, Hna.
  - symmetry. apply forallb_forall. intros f Hf.
    apply filter_In in Hf. destruct Hf as [Hf Hna].
    apply in_map_iff in Hf. destruct Hf as [c [<- Hc]].
    rewrite forallb_forall in Hsafe.
    destruct (safe_number_read as_float c (Hsafe c Hc))
      as [[Hna' _]|[_ [q [_ Hq]]]]; cbv zeta in *.
    + rewrite Hna' in Hna. discriminate.
    + now rewrite Hq.
Qed.

Lemma infer_boolean_column (l : label) (as_float : bool) (vals : list cell) :
  vals <> [] -> forallb is_bool vals = true ->
  infer_column l (map (cell_str as_float) vals) = mkSeries l boolean vals.
Proof.
  intros Hne Hsafe. unfold infer_column. rewrite length_map.
  assert (Hcell : forall c, In c vals ->
            exists b, c = Bool b
                      /\ is_na (cell_str as_float c) = false
                      /\ parse_number (cell_str as_float c) = None
                      /\ parse_bool (cell_str as_float c) = Some b).
  { intros c Hc. rewrite forallb_forall in Hsafe. specialize (Hsafe c Hc).
    destruct c; try discriminate. exists b. destruct b; repeat split. }
  destruct vals as [|v0 vals0] eqn:Ev; [congruence|]. rewrite <- Ev in *.
  replace (length vals =? 0)%nat with false by (now subst vals).
  assert (Hv0 : In v0 vals) by (subst vals; now left).
  rewrite (forallb_false_ex _ _ (cell_str as_float v0)).
  - replace (forallb (fun f => is_some (parse_bool f)) _) with true.
    + replace (forallb (fun f => negb (is_na f)) _) with true.
      * f_equal. rewrite map_map. rewrite <- (map_id vals) at 2.
        apply map_ext_in. intros c Hc.
        destruct (Hcell c Hc) as [b [-> [Hna [_ Hb]]]].
        now rewrite Hb, Hna.
      * symmetry. apply forallb_forall. intros f Hf.
        apply in_map_iff in Hf. destruct Hf as [c [<- Hc]].
        destruct (Hcell c Hc) as [b [_ [Hna _]]]. now rewrite Hna.
    + symmetry. apply forallb_forall. intros f Hf.
      apply filter_In in Hf. destruct Hf as [Hf _].
      apply in_map_iff in Hf. destruct Hf as [c [<- Hc]].
      destruct (Hcell c Hc) as [b [_ [_ [_ Hb]]]]. now rewrite Hb.
  - apply filter_In. split; [now apply in_map|].
    destruct (Hcell v0 Hv0) as [b [_ [Hna _]]]. now rewrite Hna.
  - destruct (Hcell v0 Hv0) as [b [_ [_ [Hn _]]]]. now rewrite Hn.
Qed.

Lemma infer_object_column (l : label) (as_float : bool) (vals : list cell) :
  forallb safe_text vals = true -> existsb wordlike_cell vals = true ->
  infer_column l (map (cell_str as_float) vals) = mkSeries l object vals.
Proof.
  intros Hsafe Hword. unfold infer_column. rewrite length_map.
  apply existsb_exists in Hword. destruct Hword as [c0 [Hc0 Hw]].
  destruct c0 as [| |s0|]; try discriminate Hw. simpl in Hw.
  assert (Hs0 : In (cell_str as_float (Str s0))
                   (filter (fun f => negb (is_na f))
                           (map (cell_str as_float) vals))).
  { apply filter_In. split; [now apply in_map|].
    rewrite forallb_forall in Hsafe. specialize (Hsafe _ Hc0). simpl in Hsafe.
    apply andb_true_iff in Hsafe. destruct Hsafe as [Hp Hna].
    unfold cell_str. simpl. now rewrite Hp. }
  assert (Hstr : cell_str as_float (Str s0) = s0).
  { rewrite forallb_forall in Hsafe. specialize (Hsafe _ Hc0). simpl in Hsafe.
    apply andb_true_iff in Hsafe. destruct Hsafe as [Hp _].
    unfold cell_str. simpl. now rewrite Hp. }
  replace (length vals =? 0)%nat with false
    by (destruct vals; [contradiction | reflexivity]).
  rewrite (forallb_false_ex _ _ _ Hs0)
    by (rewrite Hstr, wordlike_not_number by assumption; reflexivity).
  rewrite (forallb_false_ex _ _ _ Hs0)
    by (rewrite Hstr, wordlike_not_bool by assumption; reflexivity).
  f_equal. rewrite map_map. rewrite <- (map_id vals) at 2.
  apply map_ext_in. intros c Hc. rewrite forallb_forall in Hsafe.
  specialize (Hsafe c Hc). unfold cell_str.
  destruct c; try discriminate; simpl in *; [reflexivity|].
  apply andb_true_iff in Hsafe. destruct Hsafe as [Hp Hna].
  rewrite Hp. apply negb_true_iff in Hna. now rewrite Hna.
Qed.

(** A safe column is read back from its texts as it was. *)
Lemma infer_safe_column (as_float : bool) (s : Series) :
  values s <> [] -> safe_column s = true ->
  infer_column (label_of s) (map (cell_str as_float) (values s)) = s.
Proof.
  intros Hne. unfold safe_column. destruct s as [l d vals]. simpl in *.
  destruct d; intros H.
  - now apply infer_number_column.
  - apply andb_true_iff in H. destruct H. now apply infer_object_column.
  - now apply infer_boolean_column.
Qed.

(** *** The whole frame, written and read back *)

Lemma map_nth_seq {A : Type} (l : list A) (d : A) :
  map (fun j => nth j l d) (seq 0 (length l)) = l.
Proof.
  induction l as [|a l IH]; [reflexivity|].
  simpl. f_equal. rewrite <- seq_shift, map_map. exact IH.
Qed.

Lemma map_split_join (rs : list (list string)) :
  (forall r, In r rs -> r <> [] /\ forallb (free_of ",") r = true) ->
  map (split ",") (map (join ",") rs) = rs.
Proof.
  intros H. rewrite map_map. rewrite <- (map_id rs) at 2.
  apply map_ext_in. intros r Hr. destruct (H r Hr) as [Hne Hfree].
  destruct r as [|f fs]; [congruence|]. now apply split_join.
Qed.

Lemma append_nonempty_r (a : string) (c : ascii) (b : string) :
  (a ++ String c b)%string <> EmptyString.
Proof. destruct a; discriminate. Qed.

Lemma join_nonempty (sep : ascii) (fs : list string) :
  fs <> [] ->
  (2 <= length fs \/ forall f, In f fs -> f <> EmptyString) ->
  join sep fs <> EmptyString.
Proof.
  destruct fs as [|f [|g gs]]; intros Hne H; [congruence | |].
  - destruct H as [H|H]; [simpl in H; lia|]. apply H. now left.
  - apply append_nonempty_r.
Qed.

Lemma map_nonempty {A B : Type} (f : A -> B) (l : list A) :
  1 <= length l -> map f l <> [].
Proof. destruct l; simpl; [lia | discriminate]. Qed.

Lemma distinct_NoDup (l : list string) : NoDup l -> distinct l = true.
Proof.
  induction 1 as [|x l Hn Hd IH]; simpl; [reflexivity|].
  rewrite IH, andb_true_r. apply negb_true_iff, not_true_is_false.
  intros H. apply existsb_exists in H. destruct H as [y [Hy Heq]].
  apply String.eqb_eq in Heq. now subst.
Qed.

Lemma safe_column_cells (s : Series) (c : cell) :
  safe_column s = true -> In c (values s) -> safe_cell (dt s) c = true.
Proof.
  unfold safe_column, safe_cell. destruct (dt s); intros H Hc.
  - rewrite forallb_forall in H. auto.
  - apply andb_true_iff in H. destruct H as [H _].
    rewrite forallb_forall in H. auto.
  - rewrite forallb_forall in H. auto.
Qed.

Lemma safe_label_text (l : label) :
  safe_label l = true ->
  label_text l = Some (label_name l) /\ LStr (label_name l) = l
  /\ label_name l <> EmptyString
  /\ free_of "," (label_name l) = true /\ free_of LF (label_name l) = true.
Proof.
  destruct l as [s|z]; simpl; [|discriminate]. intros H.
  apply andb_true_iff in H. destruct H as [Hp Hne]. rewrite Hp.
  destruct (plain_free s Hp) as [H1 H2]. repeat split; auto.
  intros ->. discriminate.
Qed.

Lemma forallb_map_comp {A B : Type} (p : B -> bool) (g : A -> B) (l : list A) :
  forallb p (map g l) = forallb (fun x => p (g x)) l.
Proof. induction l as [|a l IH]; simpl; congruence. Qed.

Lemma to_csv_plain_some (float64 : label -> bool) (df : DataFrame)
  (header : list string) (cols : list (list string)) :
  df <> [] ->
  sequence (map label_text (columns df)) = Some header ->
  sequence (map (column_texts float64) df) = Some cols ->
  let records :=
    map (fun i => map (fun col => nth i col EmptyString) cols)
        (seq 0 (nrows df)) in
  forallb (fun r => negb (String.eqb (join "," r) EmptyString))
          (header :: records) = true ->
  to_csv_plain float64 df = Some (write_lines (header :: records)).
Proof.
  intros Hne Hh Hc records Hlines. unfold to_csv_plain.
  destruct df as [|s rest]; [congruence|].
  rewrite Hh, Hc. fold records. now rewrite Hlines.
Qed.

Lemma read_csv_written (header : list string) (records : list (list string)) :
  forallb (fun r => free_of LF (join "," r)) (header :: records) = true ->
  forallb (fun r => negb (String.eqb (join "," r) EmptyString))
          (header :: records) = true ->
  (forall r, In r (header :: records) ->
             r <> [] /\ forallb (free_of ",") r = true) ->
  distinct header = true ->
  forallb (fun h => negb (String.eqb h EmptyString)) header = true ->
  forallb (fun r => (length r <=? length header)%nat) records = true ->
  read_csv (write_lines (header :: records))
  = Some (map (fun j => infer_column (LStr (nth j header EmptyString))
                                     (field_column records j))
              (seq 0 (length header))).
Proof.
  intros Hlf Hne Hfields Hd Hh Hlen. unfold read_csv.
  rewrite split_write_lines by assumption.
  rewrite filter_nonempty_lines by (now rewrite forallb_map_comp).
  rewrite map_split_join by assumption.
  now rewrite Hd, Hh, Hlen.
Qed.

Section RoundTrip.

Variable float64 : label -> bool.
Variable df : DataFrame.
Hypothesis Hsafe : csv_safe df = true.

Let n := nrows df.
Let header := map (fun s => label_name (label_of s)) df.
Let texts (s : Series) := map (cell_str (float64 (label_of s))) (values s).
Let cols := map texts df.
Let record (i : nat) :=
  map (fun s => cell_str (float64 (label_of s)) (nth i (values s) NaN)) df.
Let records := map (fun i => map (fun col => nth i col EmptyString) cols) (seq 0 n).

Lemma csv_safe_parts :
  wf_frame df /\ 1 <= length df /\ 1 <= n
  /\ (forall s, In s df -> safe_label (label_of s) = true)
  /\ (forall s, In s df -> safe_column s = true)
  /\ (2 <= length df
      \/ forall s c, In s df -> In c (values s) -> is_nan c = false).
Proof.
  pose proof Hsafe as H. unfold csv_safe in H.
  apply andb_true_iff in H. destruct H as [H H6].
  apply andb_true_iff in H. destruct H as [H H5].
  apply andb_true_iff in H. destruct H as [H H4].
  apply andb_true_iff in H. destruct H as [H H3].
  apply andb_true_iff in H. destruct H as [H1 H2].
  repeat split.
  - exact H1.
  - now apply Nat.leb_le.
  - now apply Nat.leb_le.
  - now apply forallb_forall.
  - now apply forallb_forall.
  - apply orb_prop in H6. destruct H6 as [H6|H6].
    + left. now apply Nat.leb_le.
    + right. intros s c Hs Hc. rewrite forallb_forall in H6.
      specialize (H6 s Hs). rewrite forallb_forall in H6.
      apply negb_true_iff. auto.
Qed.

Lemma column_length (s : Series) : In s df -> length (values s) = n.
Proof.
  intros Hs. destruct csv_safe_parts as [Hwf _].
  pose proof (wf_frame_rect df Hwf) as Hr. rewrite Forall_forall in Hr. auto.
Qed.

Lemma records_are (i : nat) :
  i < n -> map (fun col => nth i col EmptyString) cols = record i.
Proof.
  intros Hi. unfold cols, record, texts. rewrite map_map.
  apply map_ext_in. intros s Hs.
  change EmptyString with (cell_str (float64 (label_of s)) NaN).
  apply map_nth.
Qed.

Lemma records_eq : records = map record (seq 0 n).
Proof.
  unfold records. apply map_ext_in. intros i Hi. apply in_seq in Hi.
  apply records_are. lia.
Qed.

Lemma record_cell_safe (i : nat) (s : Series) :
  i < n -> In s df -> In (nth i (values s) NaN) (values s)
                     /\ safe_cell (dt s) (nth i (values s) NaN) = true.
Proof.
  intros Hi Hs. destruct csv_safe_parts as [_ [_ [_ [_ [Hcol _]]]]].
  assert (Hin : In (nth i (values s) NaN) (values s))
    by (apply nth_In; rewrite column_length; assumption).
  split; [assumption|]. now apply safe_column_cells; auto.
Qed.

Lemma record_free (i : nat) :
  i < n ->
  record i <> [] /\ forallb (free_of ",") (record i) = true
  /\ forallb (free_of LF) (record i) = true
  /\ join "," (record i) <> EmptyString.
Proof.
  intros Hi. destruct csv_safe_parts as [_ [Hc [_ [_ [_ Hone]]]]].
  assert (Hne : record i <> []) by now apply map_nonempty.
  unfold record in *. repeat split.
  - exact Hne.
  - apply forallb_forall. intros f Hf. apply in_map_iff in Hf.
    destruct Hf as [s [<- Hs]].
    destruct (record_cell_safe i s Hi Hs) as [_ Hcell].
    now apply (safe_cell_free (dt s)).
  - apply forallb_forall. intros f Hf. apply in_map_iff in Hf.
    destruct Hf as [s [<- Hs]].
    destruct (record_cell_safe i s Hi Hs) as [_ Hcell].
    now apply (safe_cell_free (dt s)).
  - apply join_nonempty; [exact Hne|]. destruct Hone as [H2|Hnan].
    + left. now rewrite length_map.
    + right. intros f Hf. apply in_map_iff in Hf.
      destruct Hf as [s [<- Hs]].
      destruct (record_cell_safe i s Hi Hs) as [Hin Hcell].
      apply (safe_cell_nonempty (dt s)); auto. eapply Hnan; eauto.
Qed.

Lemma header_free :
  header <> [] /\ forallb (free_of ",") header = true
  /\ forallb (free_of LF) header = true
  /\ join "," header <> EmptyString
  /\ forallb (fun h => negb (String.eqb h EmptyString)) header = true
  /\ length header = length df.
Proof.
  destruct csv_safe_parts as [_ [Hc [_ [Hlab _]]]].
  assert (Hne : header <> []) by now apply map_nonempty.
  assert (Hall : forall h, In h header ->
            h <> EmptyString /\ free_of "," h = true /\ free_of LF h = true).
  { intros h Hh. apply in_map_iff in Hh. destruct Hh as [s [<- Hs]].
    destruct (safe_label_text _ (Hlab s Hs)) as [_ [_ [H1 [H2 H3]]]]. auto. }
  repeat split.
  - exact Hne.
  - apply forallb_forall. intros h Hh. now apply Hall.
  - apply forallb_forall. intros h Hh. now apply Hall.
  - apply join_nonempty; [exact Hne|]. right. intros h Hh. now apply Hall.
  - apply forallb_forall. intros h Hh. apply negb_true_iff.
    destruct (String.eqb h EmptyString) eqn:E; [|reflexivity].
    apply String.eqb_eq in E. now apply Hall in Hh.
  - apply length_map.
Qed.

Lemma to_csv_plain_written :
  to_csv_plain float64 df = Some (write_lines (header :: map record (seq 0 n))).
Proof.
  destruct csv_safe_parts as [_ [Hc [_ [Hlab [Hcol _]]]]].
  rewrite <- records_eq. unfold records, cols.
  apply to_csv_plain_some.
  - intros E. rewrite E in Hc. simpl in Hc. lia.
  - unfold columns. rewrite map_map. apply sequence_map.
    intros s Hs. now apply safe_label_text, Hlab.
  - apply sequence_map. intros s Hs. unfold column_texts, texts.
    apply sequence_map. intros c Hc'.
    apply (safe_cell_text (dt s)). now apply safe_column_cells; auto.
  - fold cols. fold n. fold records. rewrite records_eq.
    cbn [forallb]. apply andb_true_iff. split.
    + apply negb_true_iff, String.eqb_neq. apply header_free.
    + apply forallb_forall. intros r Hr. apply in_map_iff in Hr.
      destruct Hr as [i [<- Hi]]. apply in_seq in Hi.
      apply negb_true_iff, String.eqb_neq. apply record_free. lia.
Qed.

Lemma header_distinct : distinct header = true.
Proof.
  destruct csv_safe_parts as [Hwf [_ [_ [Hlab _]]]].
  apply distinct_NoDup. pose proof (wf_frame_NoDup df Hwf) as Hnd.
  unfold header, columns in *.
  clear - Hnd Hlab. induction df as [|s rest IH]; simpl; [constructor|].
  inversion Hnd as [|? ? Hn Hd]; subst. constructor.
  - intros Hin. apply in_map_iff in Hin. destruct Hin as [s' [Heq Hs']].
    apply Hn. apply in_map_iff. exists s'. split; [|assumption].
    destruct (safe_label_text _ (Hlab s (or_introl eq_refl))) as [_ [<- _]].
    destruct (safe_label_text _ (Hlab s' (or_intror Hs'))) as [_ [<- _]].
    now rewrite Heq.
  - apply IH; auto. intros x Hx. apply Hlab. now right.
Qed.

Lemma field_column_are (j : nat) (d0 : Series) :
  j < length df ->
  field_column (map record (seq 0 n)) j = texts (nth j df d0).
Proof.
  intros Hj. unfold field_column, texts. rewrite map_map.
  assert (Hin : In (nth j df d0) df) by now apply nth_In.
  rewrite <- (map_nth_seq (values (nth j df d0)) NaN) at 1.
  rewrite map_map, (column_length _ Hin).
  apply map_ext. intros i. unfold record.
  rewrite (nth_indep _ EmptyString
             (cell_str (float64 (label_of d0)) (nth i (values d0) NaN)))
    by now rewrite length_map.
  now rewrite (map_nth (fun s => cell_str (float64 (label_of s))
                                          (nth i (values s) NaN))).
Qed.

Lemma read_csv_read_back :
  read_csv (write_lines (header :: map record (seq 0 n))) = Some df.
Proof.
  destruct csv_safe_parts as [_ [Hc [Hn [Hlab [Hcol _]]]]].
  destruct header_free as [Hhne [Hhc [Hhl [Hhj [Hhn Hhlen]]]]].
  rewrite read_csv_written.
  - apply f_equal. rewrite Hhlen.
    set (d0 := mkSeries (LStr EmptyString) object []).
    rewrite <- (map_nth_seq df d0) at 2.
    apply map_ext_in. intros j Hj. apply in_seq in Hj.
    assert (Hin : In (nth j df d0) df) by (apply nth_In; lia).
    rewrite (field_column_are j d0) by lia.
    unfold header.
    rewrite (nth_indep _ EmptyString (label_name (label_of d0)))
      by (rewrite length_map; lia).
    rewrite (map_nth (fun s => label_name (label_of s))).
    destruct (safe_label_text _ (Hlab _ Hin)) as [_ [-> _]].
    apply infer_safe_column; [|now apply Hcol].
    intros E. apply (f_equal (@length cell)) in E.
    rewrite (column_length _ Hin) in E. simpl in E. lia.
  - cbn [forallb]. apply andb_true_iff. split.
    + apply free_of_join; [reflexivity | assumption].
    + apply forallb_forall. intros r Hr. apply in_map_iff in Hr.
      destruct Hr as [i [<- Hi]]. apply in_seq in Hi.
      apply free_of_join; [reflexivity|]. apply record_free. lia.
  - cbn [forallb]. apply andb_true_iff. split.
    + now apply negb_true_iff, String.eqb_neq.
    + apply forallb_forall. intros r Hr. apply in_map_iff in Hr.
      destruct Hr as [i [<- Hi]]. apply in_seq in Hi.
      apply negb_true_iff, String.eqb_neq. apply record_free. lia.
  - intros r [<-|Hr]; [auto|].
    apply in_map_iff in Hr. destruct Hr as [i [<- Hi]]. apply in_seq in Hi.
    split; apply record_free; lia.
  - apply header_distinct.
  - assumption.
  - apply forallb_forall. intros r Hr. apply in_map_iff in Hr.
    destruct Hr as [i [<- Hi]]. apply Nat.leb_le.
    unfold record. rewrite length_map, Hhlen. lia.
Qed.

End RoundTrip.


(** The frame of the counterexample is one the script can hold: it is
    what stripping the special characters makes of a loaded file. *)
Lemma frame_with_na_text_reachable :
  option_map strip_special
    (read_csv ("name,country" ++ String LF "Bob,N.A." ++ String LF "Eva,DE"
               ++ String LF "")%string)
  = Some frame_with_na_text.
Proof. vm_compute. reflexivity. Qed.



(* ===================================================================== *)
(** ** Further properties of the script *)
(* ===================================================================== *)

(** *** Well-formed frames are kept well formed *)

Lemma wf_frame_intro (df : DataFrame) (n : nat) :
  NoDup (columns df) -> rect df n -> wf_frame df.
Proof.
  intros Hnd Hr. unfold wf_frame, well_formed. apply andb_true_iff. split.
  - now apply distinct_labels_NoDup.
  - apply forallb_forall. intros s Hs. apply Nat.eqb_eq.
    assert (Hn : nrows df = n).
    { apply rect_nrows; [|assumption]. intros ->. destruct Hs. }
    unfold rect in Hr. rewrite Forall_forall in Hr.
    now rewrite (Hr s Hs).
Qed.

Lemma update_where_wf (p : Series -> bool) (f : Series -> Series)
  (df : DataFrame) :
  (forall s, label_of (f s) = label_of s) ->
  (forall s, length (values (f s)) = length (values s)) ->
  wf_frame df -> wf_frame (update_where p f df).
Proof.
  intros Hl Hv Hwf. apply (wf_frame_intro _ (nrows df)).
  - replace (columns (update_where p f df)) with (columns df);
      [now apply wf_frame_NoDup|].
    unfold columns, update_where. rewrite map_map. apply map_ext.
    intros s. now destruct (p s).
  - pose proof (wf_frame_rect df Hwf) as Hr. unfold rect, update_where.
    apply Forall_map. eapply Forall_impl; [|exact Hr].
    intros s Hs. cbv beta in *. destruct (p s); [rewrite Hv|]; assumption.
Qed.

Lemma getitem_mask_wf (df : DataFrame) (mask : list bool) :
  length mask = nrows df -> wf_frame df -> wf_frame (getitem_mask df mask).
Proof.
  intros Hlen Hwf. apply (wf_frame_intro _ (count_true mask)).
  - replace (columns (getitem_mask df mask)) with (columns df);
      [now apply wf_frame_NoDup|].
    unfold columns, getitem_mask. now rewrite map_map.
  - apply rect_getitem_mask. rewrite Hlen. now apply wf_frame_rect_nrows.
Qed.

Lemma drop_duplicates_wf (df : DataFrame) :
  wf_frame df -> wf_frame (drop_duplicates df).
Proof.
  intros Hwf. unfold drop_duplicates. apply getitem_mask_wf; [|assumption].
  unfold duplicated. now rewrite length_map, duplicated_scan_length, rows_length.
Qed.

Lemma lowercase_text_wf (df df' : DataFrame) :
  wf_frame df -> lowercase_text df = Some df' -> wf_frame df'.
Proof.
  intros Hwf H. rewrite (lowercase_text_update df df' Hwf H).
  apply update_where_wf; auto. intros s. simpl. apply length_map.
Qed.

Lemma strip_special_wf (df : DataFrame) :
  wf_frame df -> wf_frame (strip_special df).
Proof.
  intros Hwf. rewrite strip_special_update by assumption.
  apply update_where_wf; auto. intros s. simpl. apply length_map.
Qed.

Lemma fill_with_mean_length (s : Series) :
  length (values (fill_with_mean s)) = length (values s).
Proof.
  unfold fill_with_mean. destruct (mean (values s)); simpl;
    [apply length_map | reflexivity].
Qed.

Lemma fill_missing_wf (df : DataFrame) :
  wf_frame df -> wf_frame (fst (fill_missing df)).
Proof.
  intros Hwf.
  destruct (index_any (columns (select_dtypes number df))) eqn:Hany.
  - rewrite fill_missing_update by assumption. simpl.
    apply update_where_wf; auto using fill_with_mean_label, fill_with_mean_length.
  - unfold fill_missing. now rewrite Hany.
Qed.

Lemma filter_isin_wf (df df' : DataFrame) (c : label) (sel : list cell) :
  wf_frame df -> filter_isin df c sel = Some df' -> wf_frame df'.
Proof.
  intros Hwf. unfold filter_isin.
  destruct (getitem df c) as [col|] eqn:Hg; [|discriminate].
  intros H. injection H as <-. apply getitem_mask_wf; [|assumption].
  unfold isin. rewrite length_map.
  unfold getitem in Hg. apply find_some in Hg. destruct Hg as [Hin _].
  pose proof (wf_frame_rect df Hwf) as Hr. rewrite Forall_forall in Hr. auto.
Qed.

(** X1.  Every cleaning step and the filter keep a well-formed frame well
    formed: the column labels stay distinct and the columns stay equally
    long. *)
Theorem cleaning_keeps_well_formed (df : DataFrame) :
  wf_frame df ->
  wf_frame (drop_duplicates df)
  /\ (forall df', lowercase_text df = Some df' -> wf_frame df')
  /\ wf_frame (fst (fill_missing df))
  /\ wf_frame (strip_special df)
  /\ (forall c sel df', filter_isin df c sel = Some df' -> wf_frame df').
Proof.
  intros Hwf. repeat split.
  - now apply drop_duplicates_wf.
  - intros df' H. now apply (lowercase_text_wf df).
  - now apply fill_missing_wf.
  - now apply strip_special_wf.
  - intros c sel df' H. now apply (filter_isin_wf df df' c sel).
Qed.

Lemma cleaning_keeps_well_formed_witness :
  wf_frame sample_frame /\ wf_frame (drop_duplicates sample_frame)
  /\ wf_frame (strip_special sample_frame).
Proof.
  split; [reflexivity|].
  destruct (cleaning_keeps_well_formed sample_frame eq_refl)
    as [H1 [_ [_ [H4 _]]]].
  split; assumption.
Defined.

(** *** Cleaning twice *)

Lemma update_where_idem (p : Series -> bool) (f : Series -> Series)
  (df : DataFrame) :
  (forall s, p s = true -> p (f s) = true /\ f (f s) = f s) ->
  update_where p f (update_where p f df) = update_where p f df.
Proof.
  intros H. unfold update_where. rewrite map_map. apply map_ext. intros s.
  destruct (p s) eqn:E; [|now rewrite E].
  destruct (H s E) as [-> ->]. reflexivity.
Qed.

Lemma keep_class_column_idem (s : Series) :
  keep_class_column (keep_class_column s) = keep_class_column s.
Proof.
  unfold keep_class_column. simpl. f_equal. rewrite map_map.
  apply map_ext. intros [| |t|]; simpl; try reflexivity.
  now rewrite keep_class_idem.
Qed.

(** X3.  Stripping the special characters twice gives what stripping
    them once gives. *)
Theorem strip_special_idempotent (df : DataFrame) :
  wf_frame df -> strip_special (strip_special df) = strip_special df.
Proof.
  intros Hwf.
  rewrite (strip_special_update (strip_special df))
    by now apply strip_special_wf.
  rewrite strip_special_update by assumption.
  apply update_where_idem. intros s Hs. split; [exact Hs|].
  apply keep_class_column_idem.
Qed.

Lemma strip_special_idempotent_witness :
  wf_frame sample_frame
  /\ strip_special (strip_special sample_frame) = strip_special sample_frame.
Proof.
  split; [reflexivity|].
  apply (strip_special_idempotent sample_frame). reflexivity.
Defined.

Lemma lower_char_idem (c : ascii) : lower_char (lower_char c) = lower_char c.
Proof. destruct c as [[] [] [] [] [] [] [] []]; reflexivity. Qed.

Lemma lower_idem (s : string) : lower (lower s) = lower s.
Proof.
  induction s as [|c s IH]; simpl; [reflexivity|].
  now rewrite lower_char_idem, IH.
Qed.

Lemma str_lower_idem (s : Series) : str_lower (str_lower s) = str_lower s.
Proof.
  unfold str_lower. simpl. f_equal. rewrite map_map.
  apply map_ext. intros [| |t|]; simpl; try reflexivity.
  now rewrite lower_idem.
Qed.

(** After lowercasing, a column holds strings and missing values only,
    which the [.str] accessor accepts. *)
Lemma str_lower_accepted (vals : list cell) :
  str_accessor_ok (map str_lower_cell vals) = true.
Proof.
  unfold str_accessor_ok.
  destruct (filter _ (map str_lower_cell vals)) as [|c present] eqn:E;
    [reflexivity|].
  assert (Hc : In c (filter (fun c => negb (is_nan c)) (map str_lower_cell vals)))
    by (rewrite E; now left).
  apply filter_In in Hc. destruct Hc as [Hc Hn].
  apply in_map_iff in Hc. destruct Hc as [c0 [<- _]].
  destruct c0; simpl in *; try discriminate. reflexivity.
Qed.

Lemma lowercase_text_result (df : DataFrame) :
  wf_frame df ->
  lowercase_text df =
  if forallb (fun x => str_accessor_ok (values x)) (filter (has_dtype object) df)
  then Some (update_where (has_dtype object) str_lower df)
  else None.
Proof.
  intros Hwf. unfold lowercase_text. rewrite select_dtypes_filter.
  pose proof (wf_frame_NoDup df Hwf) as Hnd.
  rewrite (getitem_list_sub df (filter (has_dtype object) df))
    by (auto; intros x Hx; apply filter_In in Hx; tauto).
  destruct (forallb _ _); [|reflexivity]. f_equal.
  rewrite <- (getitem_list_sub df (filter (has_dtype object) df)) at 2
    by (auto; intros x Hx; apply filter_In in Hx; tauto).
  unfold apply. now apply (assign_selected str_lower).
Qed.

(** X4.  On a frame of ASCII text, lowercasing a frame that has been
    lowercased succeeds and changes nothing. *)
Theorem lowercase_text_idempotent (df df' : DataFrame) :
  wf_frame df -> ascii_frame df = true ->
  lowercase_text df = Some df' -> lowercase_text df' = Some df'.
Proof.
  intros Hwf _ H. pose proof (lowercase_text_wf df df' Hwf H) as Hwf'.
  rewrite (lowercase_text_update df df' Hwf H) in *.
  rewrite lowercase_text_result by assumption.
  replace (forallb _ _) with true.
  - f_equal. apply update_where_idem. intros s Hs. split; [reflexivity|].
    apply str_lower_idem.
  - symmetry. apply forallb_forall. intros x Hx.
    apply filter_In in Hx. destruct Hx as [Hx Hobj].
    unfold update_where in Hx. apply in_map_iff in Hx.
    destruct Hx as [s [<- Hs]]. destruct (has_dtype object s) eqn:E.
    + simpl. apply str_lower_accepted.
    + congruence.
Qed.

Lemma lowercase_text_idempotent_witness :
  wf_frame sample_frame /\ ascii_frame sample_frame = true
  /\ (forall df', lowercase_text sample_frame = Some df' ->
                  lowercase_text df' = Some df').
Proof.
  split; [reflexivity|]. split; [reflexivity|]. intros df'.
  apply (lowercase_text_idempotent sample_frame df'); reflexivity.
Defined.

Lemma fill_cell_present (m : Qc) (vs : list cell) :
  ~ In NaN vs -> map (fill_cell m) vs = vs.
Proof.
  induction vs as [|v vs IH]; simpl; intros H; [reflexivity|].
  rewrite IH by tauto. destruct v; try reflexivity. tauto.
Qed.

Lemma fill_with_mean_idem (s : Series) :
  fill_with_mean (fill_with_mean s) = fill_with_mean s.
Proof.
  destruct (mean (values s)) as [m|] eqn:Hm.
  - assert (H1 : fill_with_mean s
                 = mkSeries (label_of s) (dt s) (map (fill_cell m) (values s)))
      by (unfold fill_with_mean; now rewrite Hm).
    rewrite H1. unfold fill_with_mean. simpl.
    destruct (mean (map (fill_cell m) (values s))) as [m'|]; [|reflexivity].
    f_equal. apply fill_cell_present.
    intros H. apply in_map_iff in H. destruct H as [c [Hc _]].
    destruct c; discriminate.
  - assert (H1 : fill_with_mean s = s)
      by (unfold fill_with_mean; now rewrite Hm).
    now rewrite !H1.
Qed.

Lemma fill_with_mean_dt (s : Series) : dt (fill_with_mean s) = dt s.
Proof. unfold fill_with_mean. now destruct (mean (values s)). Qed.

Lemma numeric_labels_kept (df : DataFrame) :
  columns (select_dtypes number
             (update_where (has_dtype number) fill_with_mean df))
  = columns (select_dtypes number df).
Proof.
  rewrite !select_dtypes_filter. unfold columns, update_where.
  induction df as [|s df IH]; [reflexivity|]. simpl.
  destruct (has_dtype number s) eqn:E.
  - unfold has_dtype at 1. rewrite fill_with_mean_dt. fold (has_dtype number s).
    rewrite E. simpl. now rewrite fill_with_mean_label, IH.
  - rewrite E. exact IH.
Qed.

(** X5.  Filling the missing values twice gives what filling them once
    gives, with the same outcome (success or warning); and a frame whose
    numeric columns have no missing value is left as it is. *)
Theorem fill_missing_idempotent (df : DataFrame) :
  wf_frame df ->
  fill_missing (fst (fill_missing df)) = fill_missing df
  /\ ((forall s, In s df -> dt s = number -> ~ In NaN (values s)) ->
      fst (fill_missing df) = df).
Proof.
  intros Hwf.
  destruct (index_any (columns (select_dtypes number df))) eqn:Hany.
  - rewrite (fill_missing_update df Hwf Hany). simpl. split.
    + rewrite fill_missing_update.
      * f_equal. apply update_where_idem. intros s Hs. split.
        -- unfold has_dtype in *. now rewrite fill_with_mean_dt.
        -- apply fill_with_mean_idem.
      * apply update_where_wf;
          auto using fill_with_mean_label, fill_with_mean_length.
      * now rewrite numeric_labels_kept.
    + intros Hfull. unfold update_where. rewrite <- (map_id df) at 2.
      apply map_ext_in. intros s Hs. unfold has_dtype.
      destruct (dtype_eqb (dt s) number) eqn:E; [|reflexivity].
      apply dtype_eqb_eq in E. unfold fill_with_mean.
      destruct (mean (values s)); [|reflexivity].
      rewrite fill_cell_present by auto. apply series_eta.
  - unfold fill_missing. rewrite Hany. simpl. rewrite Hany. auto.
Qed.

Lemma fill_missing_idempotent_witness :
  wf_frame sample_frame
  /\ fill_missing (fst (fill_missing sample_frame)) = fill_missing sample_frame.
Proof.
  split; [reflexivity|].
  apply (fill_missing_idempotent sample_frame). reflexivity.
Defined.


(** *** The rows left by [drop_duplicates] *)

Lemma kept_rows_distinct (rs seen : list row) :
  let kept := select_rows (map negb (duplicated_scan seen rs)) rs in
  NoDup kept
  /\ (forall r, In r kept -> ~ In r seen /\ In r rs)
  /\ (forall r, In r rs -> In r seen \/ In r kept).
Proof.
  revert seen. induction rs as [|r rs IH]; intros seen; simpl.
  - repeat split; [constructor | destruct H | destruct H | tauto].
  - destruct (IH (r :: seen)) as [Hnd [Hout Hcov]]. cbv zeta in *.
    destruct (existsb (row_eqb r) seen) eqn:E; simpl.
    + apply existsb_row_In in E. repeat split.
      * exact Hnd.
      * intros Hs. apply (Hout r0 H). now right.
      * right. now apply Hout.
      * intros x [<-|Hx]; [now left|].
        destruct (Hcov x Hx) as [[<-|Hs]|Hk]; auto.
    + assert (Hr : ~ In r seen).
      { intros Hin. apply existsb_row_In in Hin. congruence. }
      repeat split.
      * constructor; [|exact Hnd]. intros Hin. apply (Hout r Hin). now left.
      * destruct H as [<-|H]; [exact Hr|].
        intros Hs. apply (Hout r0 H). now right.
      * destruct H as [<-|H]; [now left|]. right. now apply Hout.
      * intros x [<-|Hx]; [right; now left|].
        destruct (Hcov x Hx) as [[<-|Hs]|Hk]; simpl; auto.
Qed.

Lemma select_rows_length (mask : list bool) (rs : list row) :
  length (select_rows mask rs) <= length rs.
Proof.
  revert rs. induction mask as [|b mask IH]; intros [|r rs]; simpl; try lia.
  specialize (IH rs). destruct b; simpl; lia.
Qed.

(** X6.  After the duplicates are removed no two rows of the frame are
    equal, every row of the original frame is still there, no row is new,
    and the frame has not grown. *)
Theorem drop_duplicates_rows_distinct (df : DataFrame) :
  wf_frame df ->
  NoDup (rows (drop_duplicates df))
  /\ (forall r, In r (rows (drop_duplicates df)) <-> In r (rows df))
  /\ nrows (drop_duplicates df) <= nrows df.
Proof.
  intros Hwf. rewrite <- !rows_length.
  rewrite drop_duplicates_rows by assumption. unfold duplicated.
  destruct (kept_rows_distinct (rows df) []) as [Hnd [Hout Hcov]].
  cbv zeta in *. repeat split.
  - exact Hnd.
  - intros H. now apply Hout.
  - intros H. destruct (Hcov r H) as [[]|Hk]. exact Hk.
  - apply select_rows_length.
Qed.

Lemma drop_duplicates_rows_distinct_witness :
  wf_frame frame_with_duplicates
  /\ NoDup (rows (drop_duplicates frame_with_duplicates)).
Proof.
  split; [reflexivity|].
  apply (drop_duplicates_rows_distinct frame_with_duplicates). reflexivity.
Defined.

(** *** What the filter keeps *)

Lemma cell_eqb_eq (a b : cell) : cell_eqb a b = true <-> a = b.
Proof. unfold cell_eqb. destruct (cell_eq_dec a b); split; congruence. Qed.

Lemma existsb_cell_In (v : cell) (sel : list cell) :
  existsb (cell_eqb v) sel = true <-> In v sel.
Proof.
  rewrite existsb_exists. split.
  - intros [x [Hin Heq]]. apply cell_eqb_eq in Heq. now subst.
  - intros Hin. exists v. split; [assumption | apply cell_eqb_refl].
Qed.

Lemma getitem_getitem_mask (df : DataFrame) (mask : list bool) (c : label) :
  getitem (getitem_mask df mask) c
  = option_map (fun s => mkSeries (label_of s) (dt s)
                                  (mask_select mask (values s)))
               (getitem df c).
Proof.
  unfold getitem, getitem_mask. induction df as [|s df IH]; [reflexivity|].
  simpl. destruct (label_eqb (label_of s) c); [reflexivity | exact IH].
Qed.

Lemma mask_select_sound (p : cell -> bool) (vs : list cell) (v : cell) :
  In v (mask_select (map p vs) vs) -> p v = true /\ In v vs.
Proof.
  induction vs as [|a vs IH]; simpl; [tauto|].
  destruct (p a) eqn:E; simpl; intros H.
  - destruct H as [<-|H]; [auto|]. destruct (IH H). auto.
  - destruct (IH H). auto.
Qed.

(** X7.  The filter keeps the columns and, of the rows, exactly those at
    the positions where the value of the chosen column is one of the
    selected values, in their order; every value left in that column is
    a selected one, and with nothing selected no row is left. *)
Theorem filter_isin_keeps_selected (df : DataFrame) (c : label)
  (col : Series) (sel : list cell) :
  wf_frame df -> getitem df c = Some col ->
  exists df' col',
    filter_isin df c sel = Some df'
    /\ map (fun s => (label_of s, dt s)) df' = map (fun s => (label_of s, dt s)) df
    /\ rows df'
       = select_rows (map (fun v => existsb (cell_eqb v) sel) (values col))
                     (rows df)
    /\ getitem df' c = Some col'
    /\ (forall v, In v (values col') -> In v sel /\ In v (values col))
    /\ (sel = [] -> nrows df' = 0).
Proof.
  intros Hwf Hg.
  assert (Hin : In col df).
  { unfold getitem in Hg. apply find_some in Hg. tauto. }
  assert (Hlen : length (values col) = nrows df).
  { pose proof (wf_frame_rect df Hwf) as Hr. rewrite Forall_forall in Hr. auto. }
  assert (Hne : df <> []) by (intros ->; destruct Hin).
  exists (getitem_mask df (isin col sel)).
  exists (mkSeries (label_of col) (dt col)
                   (mask_select (isin col sel) (values col))).
  unfold filter_isin. rewrite Hg.
  split; [reflexivity|]. split; [|split; [|split; [|split]]].
  - unfold getitem_mask. rewrite map_map. reflexivity.
  - unfold isin. apply rows_getitem_mask; [assumption|].
    rewrite length_map, Hlen. now apply wf_frame_rect_nrows.
  - rewrite getitem_getitem_mask, Hg. reflexivity.
  - simpl. unfold isin. intros v Hv.
    apply mask_select_sound in Hv. destruct Hv as [Hv Hi].
    split; [now apply existsb_cell_In | assumption].
  - intros ->.
    rewrite (rect_nrows _ (count_true (isin col [])));
      [| unfold getitem_mask; destruct df; [congruence | discriminate]
       | apply rect_getitem_mask; unfold isin; rewrite length_map, Hlen;
         now apply wf_frame_rect_nrows ].
    unfold isin. simpl. clear. induction (values col); simpl; auto.
Qed.

Lemma filter_isin_keeps_selected_witness :
  wf_frame sample_frame
  /\ getitem sample_frame (LStr "age")
     = Some (mkSeries (LStr "age") number [Num (Q2Qc 30); NaN; Num (Q2Qc 40)])
  /\ exists df', filter_isin sample_frame (LStr "age") [NaN] = Some df'.
Proof.
  split; [reflexivity|]. split; [reflexivity|].
  destruct (filter_isin_keeps_selected sample_frame (LStr "age") _ [NaN]
              eq_refl eq_refl) as [df' [col' [H _]]].
  now exists df'.
Defined.

Lemma mask_select_twice (p1 p2 : cell -> bool) (vs ws : list cell) :
  mask_select (map p2 (mask_select (map p1 vs) vs))
              (mask_select (map p1 vs) ws)
  = mask_select (map (fun v => p1 v && p2 v) vs) ws.
Proof.
  revert ws. induction vs as [|v vs IH]; intros ws; [reflexivity|].
  destruct ws as [|w ws]; simpl.
  - destruct (p1 v); simpl; [destruct (p2 v)|]; try reflexivity.
    all: now destruct (map p2 (mask_select (map p1 vs) vs)).
  - destruct (p1 v); simpl; [destruct (p2 v)|]; simpl; now rewrite IH.
Qed.

Lemma existsb_filter_both (v : cell) (s1 s2 : list cell) :
  existsb (cell_eqb v) (filter (fun x => existsb (cell_eqb x) s2) s1)
  = existsb (cell_eqb v) s1 && existsb (cell_eqb v) s2.
Proof.
  apply eq_iff_eq_true.
  rewrite andb_true_iff, !existsb_cell_In, filter_In, existsb_cell_In.
  tauto.
Qed.

(** X8.  Filtering on a column and then again on the same column gives
    what one filter gives with the values selected both times. *)
Theorem filter_isin_twice (df df1 : DataFrame) (c : label) (s1 s2 : list cell) :
  filter_isin df c s1 = Some df1 ->
  filter_isin df1 c s2
  = filter_isin df c (filter (fun x => existsb (cell_eqb x) s2) s1).
Proof.
  unfold filter_isin. destruct (getitem df c) as [col|] eqn:Hg; [|discriminate].
  intros H. injection H as <-.
  rewrite getitem_getitem_mask, Hg. simpl. f_equal.
  unfold getitem_mask, isin. simpl. rewrite map_map. apply map_ext. intros s.
  simpl. f_equal. rewrite mask_select_twice. f_equal.
  apply map_ext. intros v. symmetry. apply existsb_filter_both.
Qed.

Lemma filter_isin_twice_witness :
  let df1 := getitem_mask sample_frame [true; true; false] in
  filter_isin sample_frame (LStr "age") [NaN; Num (Q2Qc 30)] = Some df1
  /\ filter_isin df1 (LStr "age") [Num (Q2Qc 30)]
     = filter_isin sample_frame (LStr "age")
         (filter (fun x => existsb (cell_eqb x) [Num (Q2Qc 30)])
                 [NaN; Num (Q2Qc 30)]).
Proof.
  split; [reflexivity|].
  apply (filter_isin_twice sample_frame _ (LStr "age")). reflexivity.
Defined.

(** *** The preview *)

Lemma mask_select_none (k : nat) (vs : list cell) :
  mask_select (repeat false k) vs = [].
Proof.
  revert vs. induction k as [|k IH]; intros [|v vs]; simpl; auto.
Qed.

Lemma select_rows_none (k : nat) (rs : list row) :
  select_rows (repeat false k) rs = [].
Proof.
  revert rs. induction k as [|k IH]; intros [|r rs]; simpl; auto.
Qed.

Lemma head_mask_length (n len : nat) : length (head_mask n len) = len.
Proof. unfold head_mask. rewrite length_app, !repeat_length. lia. Qed.

Lemma firstn_mask (n : nat) (vs : list cell) :
  mask_select (head_mask n (length vs)) vs = firstn n vs.
Proof.
  unfold head_mask. revert n. induction vs as [|v vs IH]; intros n.
  - simpl. now destruct n.
  - destruct n.
    + simpl Nat.min. simpl app. apply mask_select_none.
    + simpl. f_equal. apply IH.
Qed.

Lemma firstn_rows_mask (n : nat) (rs : list row) :
  select_rows (head_mask n (length rs)) rs = firstn n rs.
Proof.
  unfold head_mask. revert n. induction rs as [|r rs IH]; intros n.
  - simpl. now destruct n.
  - destruct n.
    + simpl Nat.min. simpl app. apply select_rows_none.
    + simpl. f_equal. apply IH.
Qed.

Lemma head_as_mask (n : nat) (df : DataFrame) :
  wf_frame df -> head n df = getitem_mask df (head_mask n (nrows df)).
Proof.
  intros Hwf. unfold head, getitem_mask. apply map_ext_in. intros s Hs.
  pose proof (wf_frame_rect df Hwf) as Hr. rewrite Forall_forall in Hr.
  rewrite <- (Hr s Hs). now rewrite firstn_mask.
Qed.

(** X9.  The preview [df.head(7)] holds the first seven rows of the
    frame, in order, and all the rows when there are fewer. *)
Theorem head_first_rows (n : nat) (df : DataFrame) :
  wf_frame df ->
  rows (head n df) = firstn n (rows df)
  /\ nrows (head n df) = Nat.min n (nrows df).
Proof.
  intros Hwf.
  assert (H : rows (head n df) = firstn n (rows df)).
  { destruct df as [|s df']; [now destruct n|].
    rewrite head_as_mask by assumption.
    rewrite rows_getitem_mask.
    - rewrite <- (rows_length (s :: df')). apply firstn_rows_mask.
    - discriminate.
    - rewrite head_mask_length. now apply wf_frame_rect_nrows. }
  split; [exact H|].
  now rewrite <- !rows_length, H, length_firstn.
Qed.

Lemma head_first_rows_witness :
  wf_frame sample_frame
  /\ rows (head 2 sample_frame) = firstn 2 (rows sample_frame).
Proof.
  split; [reflexivity|].
  apply (head_first_rows 2 sample_frame). reflexivity.
Defined.

(** *** A pass that raises *)

(** X10.  When the pass of a file raises (the reader fails on it, or a
    step of the body or a widget call does), the run ends there: the
    output is what the files before it and that pass wrote, the files
    after it are not processed, and the closing success message is not
    written. *)
Theorem exception_ends_run (w : Widgets) (env : Env)
  (before after : list UploadedFile) (file : UploadedFile)
  (out out_file : list event) (e : exn) :
  for_each_file w env [] before = (out, None) ->
  process_file w env out file = (out_file, Some e) ->
  main w env (before ++ file :: after) = (out ++ out_file, Some e).
Proof.
  intros Hb Hf. unfold main.
  rewrite for_each_file_app, Hb. simpl.
  now rewrite Hf.
Qed.

Lemma exception_ends_run_witness :
  for_each_file idle_widgets sample_env [] [notes_txt]
  = ([st_error "❌ Unsupported file format: .txt"], None)
  /\ process_file idle_widgets sample_env
       [st_error "❌ Unsupported file format: .txt"]
       (mkUploadedFile "empty.csv" 0 EmptyString)
     = ([], Some ParserError)
  /\ main idle_widgets sample_env
       ([notes_txt] ++ mkUploadedFile "empty.csv" 0 EmptyString
                    :: [mkUploadedFile "data.csv" 8 small_csv])
     = ([st_error "❌ Unsupported file format: .txt"] ++ [], Some ParserError).
Proof.
  split; [reflexivity|]. split; [reflexivity|].
  apply (exception_ends_run idle_widgets sample_env [notes_txt]);
    reflexivity.
Defined.

(** *** Renaming the download *)

Lemma prefix_refl (s : string) : prefix s s = true.
Proof.
  induction s as [|c s IH]; simpl; [reflexivity|].
  destruct (ascii_dec c c); [exact IH | congruence].
Qed.

Lemma prefix_split (a s : string) :
  prefix a s = true -> exists r, s = (a ++ r)%string.
Proof.
  revert s. induction a as [|c a IH]; intros s H.
  - now exists s.
  - destruct s as [|d s]; simpl in H; [discriminate H|].
    destruct (ascii_dec c d) as [->|]; [|discriminate H].
    destruct (IH s H) as [r ->]. now exists r.
Qed.

Lemma length_append (a b : string) :
  String.length (a ++ b) = String.length a + String.length b.
Proof. induction a as [|c a IH]; simpl; [reflexivity | now rewrite IH]. Qed.

Lemma replace_scan_skip (old new x r : string) :
  replace_scan old new (String.length x) (x ++ r) = replace_scan old new 0 r.
Proof. induction x as [|c x IH]; simpl; [reflexivity | exact IH]. Qed.

Lemma replace_scan_match (old new r : string) (c : ascii) (o : string) :
  old = String c o ->
  replace_scan old new 0 (old ++ r) = (new ++ replace_scan old new 0 r)%string.
Proof.
  intros ->. cbn [append replace_scan].
  change (String c (o ++ r)) with (String c o ++ r)%string.
  replace (prefix (String c o) (String c o ++ r)) with true.
  - replace (String.length (String c o) - 1) with (String.length o)
      by (simpl; lia).
    now rewrite replace_scan_skip.
  - symmetry. clear. generalize (String c o) as a.
    induction a as [|d a IH]; simpl; [now destruct r|].
    destruct (ascii_dec d d); [exact IH | congruence].
Qed.

Lemma replace_scan_same (old : string) (n : nat) (s : string) :
  old <> EmptyString -> String.length s <= n ->
  replace_scan old old 0 s = s.
Proof.
  intros Hold. revert s. induction n as [|n IH]; intros s Hlen.
  - destruct s; [reflexivity | simpl in Hlen; lia].
  - destruct (prefix old s) eqn:E.
    + destruct (prefix_split old s E) as [r ->].
      destruct old as [|c o]; [congruence|].
      rewrite (replace_scan_match (String c o) (String c o) r c o eq_refl).
      rewrite IH; [reflexivity|].
      rewrite length_append in Hlen. simpl in Hlen. lia.
    + destruct s as [|c s]; [reflexivity|].
      cbn [replace_scan]. rewrite E. f_equal. apply IH. simpl in Hlen. lia.
Qed.

Lemma replace_same (s old : string) : replace s old old = s.
Proof.
  unfold replace. destruct old as [|c o].
  - induction s as [|d s IH]; simpl; [reflexivity | now rewrite IH].
  - apply (replace_scan_same _ (String.length s)); [discriminate | lia].
Qed.

(** X11.  Converting to the format the file already has offers the
    download under the very name of the file. *)
Theorem same_format_keeps_name (env : Env) (l : Locals) (t : string) :
  (file_ext l = ".csv" ->
   convert env "CSV" l
   = ([st_download_button ("⬇️ Download " ++ file_name l) (to_csv env (df l))
                          (file_name l) "text/csv"], Ok tt l))
  /\ (file_ext l = ".xlsx" -> String.eqb t "CSV" = false ->
      convert env t l
      = ([st_download_button ("⬇️ Download " ++ file_name l)
                             (to_excel env (df l)) (file_name l) xlsx_mime],
         Ok tt l)).
Proof.
  split.
  - intros He. rewrite convert_run. unfold download_of. simpl String.eqb.
    cbv iota zeta. now rewrite He, replace_same.
  - intros He Ht. rewrite convert_run. unfold download_of. rewrite Ht.
    cbv zeta. now rewrite He, replace_same.
Qed.

Lemma same_format_keeps_name_witness :
  let l := mkLocals "My.Report.csv" ".csv" small_frame in
  file_ext l = ".csv"
  /\ convert sample_env "CSV" l
     = ([st_download_button "⬇️ Download My.Report.csv" "csv bytes"
                            "My.Report.csv" "text/csv"], Ok tt l).
Proof.
  split; [reflexivity|].
  apply (same_format_keeps_name sample_env
           (mkLocals "My.Report.csv" ".csv" small_frame) "CSV").
  reflexivity.
Defined.

Lemma replace_scan_single_dot (e new base : string) :
  free_of "." base = true ->
  replace_scan (String "." e) new 0 (base ++ String "." e)
  = (base ++ new)%string.
Proof.
  induction base as [|c b IH]; intros H.
  - cbn [append].
    rewrite <- (append_empty_r (String "." e)) at 2.
    rewrite (replace_scan_match (String "." e) new EmptyString "." e eq_refl).
    simpl. apply append_empty_r.
  - simpl in H. apply andb_true_iff in H. destruct H as [Hc Hb].
    apply negb_true_iff in Hc. cbn [append replace_scan prefix].
    destruct (ascii_dec "." c) as [<-|Hne]; [discriminate|].
    f_equal. now apply IH.
Qed.

(** X12.  For a file whose name is a dot-free base followed by its
    extension, Convert names the download by that base and the new
    extension, [.csv] or [.xlsx]. *)
Theorem single_dot_name_converted (env : Env) (l : Locals)
  (base e t : string) :
  file_name l = (base ++ String "." e)%string ->
  file_ext l = String "." e ->
  free_of "." base = true ->
  convert env t l
  = ([if String.eqb t "CSV"
      then st_download_button ("⬇️ Download " ++ base ++ ".csv")
             (to_csv env (df l)) (base ++ ".csv") "text/csv"
      else st_download_button ("⬇️ Download " ++ base ++ ".xlsx")
             (to_excel env (df l)) (base ++ ".xlsx") xlsx_mime],
     Ok tt l).
Proof.
  intros Hn He Hb. rewrite convert_run. unfold download_of.
  rewrite Hn, He. unfold replace.
  rewrite !replace_scan_single_dot by assumption.
  now destruct (String.eqb t "CSV").
Qed.

Lemma single_dot_name_converted_witness :
  let l := mkLocals "report.xlsx" ".xlsx" small_frame in
  file_name l = ("report" ++ String "." "xlsx")%string
  /\ file_ext l = String "." "xlsx"
  /\ free_of "." "report" = true
  /\ convert sample_env "CSV" l
     = ([st_download_button "⬇️ Download report.csv" "csv bytes"
                            "report.csv" "text/csv"], Ok tt l).
Proof.
  split; [reflexivity|]. split; [reflexivity|]. split; [reflexivity|].
  apply (single_dot_name_converted sample_env
           (mkLocals "report.xlsx" ".xlsx" small_frame) "report" "xlsx" "CSV");
    reflexivity.
Defined.

(** *** The extension of a file name *)

Lemma slice_from_S (d : nat) (c : ascii) (s : string) :
  slice_from (S d) (String c s) = slice_from d s.
Proof. reflexivity. Qed.

Lemma substring_all (p : string) : substring 0 (String.length p) p = p.
Proof. induction p as [|c p IH]; simpl; [reflexivity | now rewrite IH]. Qed.

Lemma slice_concat (p : string) (d : nat) :
  (slice_to d p ++ slice_from d p)%string = p.
Proof.
  revert d. induction p as [|c p IH]; intros d.
  - now destruct d.
  - destruct d as [|d].
    + unfold slice_to, slice_from. rewrite Nat.sub_0_r.
      now rewrite substring_all.
    + rewrite slice_from_S. unfold slice_to in *. simpl. f_equal. apply IH.
Qed.

Lemma slice_from_app (a r : string) : slice_from (String.length a) (a ++ r) = r.
Proof.
  induction a as [|c a IH].
  - unfold slice_from. simpl. rewrite Nat.sub_0_r. apply substring_all.
  - simpl. rewrite slice_from_S. exact IH.
Qed.

(** [rfind] gives [-1] when the character does not occur, and otherwise
    the position of its last occurrence. *)
Lemma rfind_from_spec (c : ascii) (s : string) (i : Z) :
  (0 <= i)%Z ->
  (rfind_from c i s = (-1)%Z /\ free_of c s = true)
  \/ (exists a b, s = (a ++ String c b)%string /\ free_of c b = true
                  /\ rfind_from c i s = (i + Z.of_nat (String.length a))%Z).
Proof.
  revert i. induction s as [|x s IH]; intros i Hi.
  - left. auto.
  - simpl. destruct (IH (i + 1)%Z ltac:(lia)) as [[Hr Hf]|[a [b [Hs [Hf Hr]]]]].
    + rewrite Hr. simpl. destruct (Ascii.eqb x c) eqn:E.
      * apply Ascii.eqb_eq in E. subst x. right.
        exists EmptyString, s. repeat split; [assumption | simpl; lia].
      * left. rewrite Hf. auto.
    + right. exists (String x a), b. rewrite Hr, Hs.
      replace (0 <=? i + 1 + Z.of_nat (String.length a))%Z with true
        by (symmetry; apply Z.leb_le; lia).
      repeat split; [assumption | simpl String.length; lia].
Qed.

Lemma append_suffix (a a' x y : string) :
  (a ++ x = a' ++ y)%string -> String.length a' < String.length a ->
  exists z, y = (z ++ x)%string /\ z <> EmptyString.
Proof.
  revert a. induction a' as [|c a' IH]; intros a H Hlen.
  - exists a. split; [now symmetry|]. intros ->. simpl in Hlen. lia.
  - destruct a as [|d a]; [simpl in Hlen; lia|].
    simpl in H. injection H as _ H. apply (IH a H). simpl in Hlen. lia.
Qed.

Lemma slice_concat_splitext (p : string) :
  (fst (splitext p) ++ snd (splitext p))%string = p.
Proof.
  unfold splitext.
  destruct (rfind "/" p <? rfind "." p)%Z; [|apply append_empty_r].
  destruct (splitext_loop p _ _); [apply slice_concat | apply append_empty_r].
Qed.

(** X13.  [splitext] cuts a path in two parts that make up the path; the
    second part, the extension, is empty or a dot followed by characters
    among which there is neither a dot nor a slash. *)
Theorem splitext_parts (p : string) :
  (fst (splitext p) ++ snd (splitext p))%string = p
  /\ (snd (splitext p) = EmptyString
      \/ exists e, snd (splitext p) = String "." e
                   /\ free_of "." e = true /\ free_of "/" e = true).
Proof.
  split; [apply slice_concat_splitext|].
  unfold splitext.
  destruct (rfind "/" p <? rfind "." p)%Z eqn:E; [|now left].
  destruct (splitext_loop p _ _); [|now left].
  right. apply Z.ltb_lt in E. cbn [snd].
  unfold rfind in *.
  destruct (rfind_from_spec "." p 0 ltac:(lia))
    as [[Hd _]|[a [b [Hp [Hfb Hd]]]]].
  - destruct (rfind_from_spec "/" p 0 ltac:(lia))
      as [[Hs _]|[a' [b' [_ [_ Hs]]]]]; lia.
  - rewrite Hd. simpl Z.add. rewrite Nat2Z.id.
    exists b. rewrite Hp at 1. rewrite slice_from_app.
    split; [reflexivity|]. split; [assumption|].
    destruct (rfind_from_spec "/" p 0 ltac:(lia))
      as [[_ Hf]|[a' [b' [Hp' [Hfb' Hs]]]]].
    + rewrite Hp, free_of_append in Hf. apply andb_true_iff in Hf.
      destruct Hf as [_ Hf]. simpl in Hf. exact Hf.
    + rewrite Hp in Hp'.
      destruct (append_suffix a a' (String "." b) (String "/" b') Hp')
        as [z [Hz Hne]]; [lia|].
      destruct z as [|c z]; [congruence|].
      simpl in Hz. injection Hz as _ Hz. rewrite Hz, free_of_append in Hfb'.
      apply andb_true_iff in Hfb'. destruct Hfb' as [_ Hf]. exact Hf.
Qed.

Lemma rfind_from_free (c : ascii) (s : string) (i : Z) :
  free_of c s = true -> rfind_from c i s = (-1)%Z.
Proof.
  revert i. induction s as [|x s IH]; intros i; simpl; [reflexivity|].
  intros H. apply andb_true_iff in H. destruct H as [Hx Hs].
  rewrite (IH _ Hs). simpl. apply negb_true_iff in Hx. now rewrite Hx.
Qed.

Lemma rfind_from_app_free (c : ascii) (a b : string) (i : Z) :
  free_of c b = true -> rfind_from c i (a ++ b) = rfind_from c i a.
Proof.
  intros Hb. revert i. induction a as [|x a IH]; intros i; simpl.
  - now apply rfind_from_free.
  - now rewrite IH.
Qed.

Lemma rfind_from_last (c : ascii) (a b : string) (i : Z) :
  (0 <= i)%Z -> free_of c b = true ->
  rfind_from c i (a ++ String c b) = (i + Z.of_nat (String.length a))%Z.
Proof.
  intros Hi Hb. revert i Hi. induction a as [|x a IH]; intros i Hi.
  - simpl. rewrite (rfind_from_free c b _ Hb). simpl.
    rewrite Ascii.eqb_refl. lia.
  - cbn [append rfind_from]. rewrite IH by lia.
    replace (0 <=? i + 1 + Z.of_nat (String.length a))%Z with true
      by (symmetry; apply Z.leb_le; lia).
    simpl String.length. lia.
Qed.

Lemma rfind_from_bound (c : ascii) (s : string) (i : Z) :
  (0 <= i)%Z ->
  (-1 <= rfind_from c i s < i + Z.of_nat (String.length s))%Z
  \/ (rfind_from c i s = (-1)%Z /\ s = EmptyString).
Proof.
  revert i. induction s as [|x s IH]; intros i Hi; [right; auto|].
  left. cbn [rfind_from]. simpl String.length.
  destruct (IH (i + 1)%Z ltac:(lia)) as [H|[H ->]].
  - destruct (0 <=? rfind_from c (i + 1) s)%Z eqn:E; [lia|].
    destruct (Ascii.eqb x c); lia.
  - rewrite H. simpl. destruct (Ascii.eqb x c); simpl; lia.
Qed.

Lemma get_app_length (pre : string) (c : ascii) (r : string) :
  String.get (String.length pre) (pre ++ String c r) = Some c.
Proof. induction pre as [|x pre IH]; simpl; [reflexivity | exact IH]. Qed.

Lemma slice_to_app (a r : string) : slice_to (String.length a) (a ++ r) = a.
Proof.
  unfold slice_to. induction a as [|c a IH]; simpl.
  - now destruct r.
  - now rewrite IH.
Qed.

Lemma has_stem_from_true (b : string) :
  free_of "/" b = true -> has_stem_from true b = true.
Proof.
  induction b as [|c b IH]; simpl; [reflexivity|]. intros H.
  apply andb_true_iff in H. destruct H as [Hc Hb].
  apply negb_true_iff in Hc. rewrite Hc. now apply IH.
Qed.

Lemma has_stem_from_slash (seen : bool) (a b : string) :
  has_stem_from seen (a ++ String "/" b) = has_stem_from false b.
Proof.
  revert seen. induction a as [|c a IH]; intros seen; simpl; [reflexivity|].
  destruct (Ascii.eqb c "/"); apply IH.
Qed.

(** The loop of [splitext] over the last component of the path. *)
Lemma splitext_loop_stem (b pre rest : string) :
  free_of "/" b = true ->
  splitext_loop (pre ++ b ++ rest) (String.length pre) (String.length b)
  = has_stem_from false b.
Proof.
  revert pre. induction b as [|c b IH]; intros pre Hb; [reflexivity|].
  simpl in Hb. apply andb_true_iff in Hb. destruct Hb as [Hc Hb].
  apply negb_true_iff in Hc.
  cbn [String.length splitext_loop append has_stem_from].
  rewrite get_app_length, Hc.
  destruct (Ascii.eqb c ".") eqn:E; simpl.
  - specialize (IH (pre ++ String c EmptyString)%string Hb).
    rewrite append_assoc in IH. simpl in IH.
    rewrite length_append in IH. simpl in IH.
    rewrite Nat.add_1_r in IH. exact IH.
  - symmetry. now apply has_stem_from_true.
Qed.

(** [splitext] on a name that ends with a dot and an extension. *)
Lemma splitext_extension (base e : string) :
  free_of "." e = true -> free_of "/" e = true -> has_stem base = true ->
  splitext (base ++ String "." e) = (base, String "." e).
Proof.
  intros He Hs Hb. unfold splitext, rfind.
  rewrite (rfind_from_last "." base e 0) by (assumption || lia).
  rewrite (rfind_from_app_free "/" base (String "." e) 0) by exact Hs.
  simpl Z.add. rewrite Nat2Z.id.
  assert (Hlt : (rfind_from "/" 0 base <? Z.of_nat (String.length base))%Z = true).
  { apply Z.ltb_lt.
    destruct (rfind_from_bound "/" base 0 ltac:(lia)) as [H|[H ->]];
      [lia | discriminate]. }
  rewrite Hlt.
  assert (Hloop : splitext_loop (base ++ String "." e)
                    (Z.to_nat (rfind_from "/" 0 base + 1))
                    (String.length base - Z.to_nat (rfind_from "/" 0 base + 1))
                  = true).
  { transitivity (has_stem base); [|exact Hb]. unfold has_stem.
    destruct (rfind_from_spec "/" base 0 ltac:(lia))
      as [[Hr Hf]|[a [b [Hbase [Hf Hr]]]]].
    - rewrite Hr. simpl Z.to_nat. rewrite Nat.sub_0_r.
      apply (splitext_loop_stem base EmptyString (String "." e) Hf).
    - rewrite Hr. clear Hr Hlt Hb. subst base. rewrite has_stem_from_slash.
      replace (Z.to_nat (0 + Z.of_nat (String.length a) + 1))
        with (String.length (a ++ String "/" EmptyString))
        by (rewrite length_append; simpl; lia).
      replace (String.length (a ++ String "/" b)
               - String.length (a ++ String "/" EmptyString))
        with (String.length b)
        by (rewrite !length_append; simpl; lia).
      replace ((a ++ String "/" b) ++ String "." e)%string
        with ((a ++ String "/" EmptyString) ++ b ++ String "." e)%string
        by (rewrite !append_assoc; reflexivity).
      now apply splitext_loop_stem. }
  rewrite Hloop. now rewrite slice_to_app, slice_from_app.
Qed.

Lemma splitext_no_dot (p : string) :
  free_of "." p = true -> splitext p = (p, EmptyString).
Proof.
  intros H. unfold splitext, rfind. rewrite (rfind_from_free "." p 0 H).
  destruct (rfind_from_bound "/" p 0 ltac:(lia)) as [Hb|[Hb _]].
  - replace (rfind_from "/" 0 p <? -1)%Z with false
      by (symmetry; apply Z.ltb_ge; lia). reflexivity.
  - rewrite Hb. reflexivity.
Qed.

(** A name without a dot has no extension: the file is refused. *)
Lemma load_no_extension (env : Env) (file : UploadedFile) :
  free_of "." (name file) = true ->
  load env file = inl "❌ Unsupported file format: "%string.
Proof.
  intros H. unfold load. rewrite (splitext_no_dot _ H). reflexivity.
Qed.

(** X14.  The loader decides by the extension of the name, whatever its
    letter case.  A file whose name is a stem, a dot and an extension is
    read as CSV when the extension is [csv], as Excel when it is [xlsx],
    and otherwise refused with a message that shows the extension in
    lower case. *)
Theorem load_by_extension (env : Env) (file : UploadedFile) (base e : string) :
  name file = (base ++ String "." e)%string ->
  free_of "." e = true -> free_of "/" e = true -> has_stem base = true ->
  ascii_only e = true ->
  load env file
  = if String.eqb (lower e) "csv" then inr (read_csv (content file))
    else if String.eqb (lower e) "xlsx"
         then inr (read_excel env (content file))
         else inl ("❌ Unsupported file format: ." ++ lower e)%string.
Proof.
  intros Hn He Hs Hb _. unfold load.
  rewrite Hn, (splitext_extension base e He Hs Hb). cbn [snd lower].
  change (lower_char ".") with "."%char.
  change (String.eqb (String "." (lower e)) ".csv")
    with (String.eqb (lower e) "csv").
  change (String.eqb (String "." (lower e)) ".xlsx")
    with (String.eqb (lower e) "xlsx").
  reflexivity.
Qed.

Lemma load_by_extension_witness :
  name (mkUploadedFile "Sales.2024.CSV" 8 small_csv)
  = ("Sales.2024" ++ String "." "CSV")%string
  /\ load sample_env (mkUploadedFile "Sales.2024.CSV" 8 small_csv)
     = inr (read_csv small_csv).
Proof.
  split; [reflexivity|].
  apply (load_by_extension sample_env
           (mkUploadedFile "Sales.2024.CSV" 8 small_csv) "Sales.2024" "CSV");
    reflexivity.
Defined.

(** *** Lowercasing and stripping, in either order *)

Lemma in_class_lower_char (c : ascii) : in_class (lower_char c) = in_class c.
Proof. destruct c as [[] [] [] [] [] [] [] []]; reflexivity. Qed.

Lemma keep_class_lower (s : string) :
  keep_class (lower s) = lower (keep_class s).
Proof.
  induction s as [|c s IH]; simpl; [reflexivity|].
  rewrite in_class_lower_char. destruct (in_class c); simpl; now rewrite IH.
Qed.

Lemma forallb_keep_class (q : cell -> bool) (l : list cell) :
  (forall c, q (keep_class_cell c) = q c) ->
  forallb q (map keep_class_cell l) = forallb q l.
Proof.
  intros Hq. induction l as [|a l IH]; simpl; [reflexivity|].
  now rewrite Hq, IH.
Qed.

Lemma str_accessor_ok_keep_class (vs : list cell) :
  str_accessor_ok (map keep_class_cell vs) = str_accessor_ok vs.
Proof.
  unfold str_accessor_ok.
  assert (Hf : filter (fun c => negb (is_nan c)) (map keep_class_cell vs)
               = map keep_class_cell (filter (fun c => negb (is_nan c)) vs)).
  { induction vs as [|v vs IH]; [reflexivity|]. simpl.
    destruct v; simpl; now rewrite IH. }
  rewrite Hf. destruct (filter _ vs) as [|c present]; [reflexivity|].
  change (map keep_class_cell (c :: present))
    with (keep_class_cell c :: map keep_class_cell present).
  cbv iota.
  change (keep_class_cell c :: map keep_class_cell present)
    with (map keep_class_cell (c :: present)).
  rewrite !forallb_keep_class by (intros x; now destruct x).
  reflexivity.
Qed.

Lemma update_where_twice (p : Series -> bool) (f g : Series -> Series)
  (df : DataFrame) :
  (forall s, p s = true -> p (f s) = true) ->
  update_where p g (update_where p f df)
  = update_where p (fun s => g (f s)) df.
Proof.
  intros H. unfold update_where. rewrite map_map. apply map_ext. intros s.
  destruct (p s) eqn:E; [now rewrite (H s E) | now rewrite E].
Qed.

Lemma lower_strip_column (s : Series) :
  keep_class_column (str_lower s) = str_lower (keep_class_column s).
Proof.
  unfold keep_class_column, str_lower. simpl. f_equal. rewrite !map_map.
  apply map_ext. intros [| |t|]; simpl; try reflexivity.
  now rewrite keep_class_lower.
Qed.

(** X16.  On a frame of ASCII text, lowercasing and stripping the
    special characters give the same frame in either order; in particular
    lowercasing raises after the stripping exactly when it raises before
    it. *)
Theorem lowercase_strip_commute (df : DataFrame) :
  wf_frame df -> ascii_frame df = true ->
  lowercase_text (strip_special df)
  = option_map strip_special (lowercase_text df).
Proof.
  intros Hwf _.
  pose proof (strip_special_wf df Hwf) as Hwf'.
  rewrite (lowercase_text_result (strip_special df)) by assumption.
  rewrite (lowercase_text_result df) by assumption.
  rewrite strip_special_update by assumption.
  replace (forallb _ (filter _ (update_where _ keep_class_column df)))
    with (forallb (fun x => str_accessor_ok (values x))
                  (filter (has_dtype object) df)).
  - destruct (forallb _ _); [|reflexivity]. cbn [option_map]. f_equal.
    rewrite strip_special_update
      by (apply update_where_wf; auto; intros s; simpl; apply length_map).
    rewrite !update_where_twice by auto.
    unfold update_where. apply map_ext. intros s.
    destruct (has_dtype object s); [|reflexivity].
    symmetry. apply lower_strip_column.
  - unfold update_where. clear. induction df as [|s df IH]; [reflexivity|].
    simpl. destruct (has_dtype object s) eqn:E.
    + change (has_dtype object (keep_class_column s))
        with (has_dtype object s). rewrite E. simpl.
      now rewrite str_accessor_ok_keep_class, IH.
    + rewrite E. exact IH.
Qed.

Lemma lowercase_strip_commute_witness :
  wf_frame sample_frame /\ ascii_frame sample_frame = true
  /\ lowercase_text (strip_special sample_frame)
     = option_map strip_special (lowercase_text sample_frame).
Proof.
  split; [reflexivity|]. split; [reflexivity|].
  apply (lowercase_strip_commute sample_frame); reflexivity.
Defined.

(** *** The options of the filter *)

Lemma unique_scan_spec (vals seen : list cell) :
  NoDup (unique_scan seen vals)
  /\ (forall v, In v (unique_scan seen vals) <-> In v vals /\ ~ In v seen).
Proof.
  revert seen. induction vals as [|a vals IH]; intros seen; simpl.
  - split; [constructor | tauto].
  - destruct (existsb (cell_eqb a) seen) eqn:E.
    + apply existsb_cell_In in E. destruct (IH seen) as [Hnd Hin].
      split; [exact Hnd|]. intros v. rewrite Hin. split; [tauto|].
      intros [[<-|Hv] Hs]; tauto.
    + assert (Ha : ~ In a seen).
      { intros H. apply existsb_cell_In in H. congruence. }
      destruct (IH (a :: seen)) as [Hnd Hin]. split.
      * constructor; [|exact Hnd]. rewrite Hin. simpl. tauto.
      * intros v. simpl. rewrite Hin. simpl. split.
        -- intros [<-|[Hv Hs]]; tauto.
        -- intros [[<-|Hv] Hs]; [tauto|].
           destruct (cell_eq_dec a v); tauto.
Qed.

(** X17.  The values offered for the filter, [df[col].unique()], are the
    values of the column (a missing value among them, if there is one),
    each of them once. *)
Theorem unique_values (col : Series) :
  NoDup (unique col) /\ (forall v, In v (unique col) <-> In v (values col)).
Proof.
  unfold unique. destruct (unique_scan_spec (values col) []) as [Hnd Hin].
  split; [exact Hnd|]. intros v. rewrite Hin. simpl. tauto.
Qed.

(** *** The filter step on the page *)

Lemma unique_has_nan (col : Series) :
  existsb is_nan (unique col) = true <-> In NaN (values col).
Proof.
  unfold unique. destruct (unique_scan_spec (values col) []) as [_ Hin].
  rewrite existsb_exists. split.
  - intros [c [Hc Hn]]. destruct c; try discriminate. apply Hin in Hc. tauto.
  - intros H. exists NaN. split; [|reflexivity]. apply Hin. simpl. tauto.
Qed.

Lemma default_in_options_present (col : Series) :
  ~ In NaN (values col) -> default_in_options col = true.
Proof.
  intros H. unfold default_in_options.
  destruct (existsb is_nan (unique col)) eqn:E.
  - apply unique_has_nan in E. contradiction.
  - now rewrite andb_false_r.
Qed.

(** X18.  When the filter step raises.  On a frame without columns it
    raises KeyError, whatever the widgets return.  When the select box
    names a numeric column that holds a missing value, the step raises at
    the multiselect, whose default is not found among its options,
    before the user can select anything.  When the select box names a
    column without missing value, the step does not raise and leaves the
    frame filtered on that column by the values the multiselect
    returns. *)
Theorem filter_step_outcome (w : Widgets) (l : Locals) :
  let heading := st_subheader "📌 Filter Data" in
  let box := st_selectbox ("Select Column to Filter " ++ file_name l)
                          (columns (df l)) in
  (df l = [] -> filter_step w l = ([heading; box], Raised KeyError))
  /\ (forall c col,
        selectbox w ("Select Column to Filter " ++ file_name l)
                  (columns (df l)) = Some c ->
        getitem (df l) c = Some col ->
        (dt col = number -> In NaN (values col) ->
         filter_step w l = ([heading; box], Raised StreamlitAPIException))
        /\ (~ In NaN (values col) ->
            filter_step w l
            = ([heading; box;
                st_multiselect ("Choose values from " ++ label_str c)
                               (unique col) (unique col)],
               Ok tt (mkLocals (file_name l) (file_ext l)
                        (getitem_mask (df l)
                           (isin col
                              (multiselect w
                                 ("Choose values from " ++ label_str c)
                                 (unique col) (unique col)))))))).
Proof.
  intros heading box. split.
  - intros He. unfold filter_step, ask_selectbox, bind, get, emit, ret.
    cbv beta iota. subst box. rewrite He.
    destruct (selectbox w _ _) as [c|]; reflexivity.
  - intros c col Hs Hg. split.
    + intros Hd Hn.
      unfold filter_step, ask_selectbox, bind, get, emit, ret.
      cbv beta iota. rewrite Hs, Hg.
      assert (Hdef : default_in_options col = false).
      { unfold default_in_options. rewrite Hd.
        rewrite (proj2 (unique_has_nan col) Hn). reflexivity. }
      rewrite Hdef. reflexivity.
    + intros Hn.
      unfold filter_step, ask_selectbox, ask_multiselect, bind, get, emit, ret.
      cbv beta iota. rewrite Hs, Hg.
      rewrite (default_in_options_present col Hn). cbv beta iota.
      unfold filter_isin. rewrite Hg. reflexivity.
Qed.

Lemma filter_step_outcome_witness :
  df (mkLocals "empty.xlsx" ".xlsx" []) = []
  /\ filter_step idle_widgets (mkLocals "empty.xlsx" ".xlsx" [])
     = ([st_subheader "📌 Filter Data";
         st_selectbox "Select Column to Filter empty.xlsx" []],
        Raised KeyError).
Proof.
  split; [reflexivity|].
  apply (filter_step_outcome idle_widgets (mkLocals "empty.xlsx" ".xlsx" [])).
  reflexivity.
Defined.

(** *** A page left alone *)

Lemma getitem_hd (d : DataFrame) (s : Series) (rest : list Series) :
  d = s :: rest -> getitem d (label_of s) = Some s.
Proof. intros ->. unfold getitem. simpl. now rewrite label_eqb_refl. Qed.

Lemma clash_false (page : list event) (e : event) :
  ~ In e page -> clash page e = false.
Proof.
  intros H. unfold clash. destruct (is_widget e); [simpl | reflexivity].
  destruct (existsb (event_eqb e) page) eqn:E; [|reflexivity].
  apply existsb_exists in E. destruct E as [x [Hx Heq]].
  apply event_eqb_eq in Heq. subst x. contradiction.
Qed.

(** Elements that are pairwise distinct and new to the page all get on
    it. *)
Lemma put_fresh (out page : list event) :
  NoDup out -> (forall e, In e out -> ~ In e page) ->
  put page out = (out, false).
Proof.
  revert page. induction out as [|e out IH]; intros page Hnd Hnew; simpl;
    [reflexivity|].
  inversion Hnd as [|? ? Hne Hnd']; subst.
  rewrite clash_false by (apply Hnew; now left).
  rewrite IH; [reflexivity | assumption |].
  intros x Hx Hin. apply in_app_or in Hin. destruct Hin as [Hin|[->|[]]].
  - apply (Hnew x); [now right | assumption].
  - contradiction.
Qed.

(** X19.  One file uploaded and the page left alone: no box ticked, no
    button pressed, the select box on the first column, the multiselect
    at its default.  When the file is loaded as a well-formed frame whose
    first column has no missing value, the run does not raise: it writes
    the name, the size, the preview, the headings and the widgets of the
    pass, and the closing message, and nothing else. *)
Theorem idle_pass (env : Env) (file : UploadedFile) (d : DataFrame)
  (s : Series) (rest : list Series) :
  load env file = inr (Some d) -> wf_frame d -> d = s :: rest ->
  ~ In NaN (values s) ->
  main idle_widgets env [file]
  = ([st_write ("**File Name:** " ++ name file);
      st_write_size (size file);
      st_write "**📈 Data Preview (First 7 Rows):**";
      st_dataframe (head 7 d);
      st_subheader "🗒️ Data Summary";
      st_checkbox ("Show Summary for " ++ name file);
      st_checkbox ("🧹 Clean & Transform Data for " ++ name file);
      st_subheader "📌 Filter Data";
      st_selectbox ("Select Column to Filter " ++ name file) (columns d);
      st_multiselect ("Choose values from " ++ label_str (label_of s))
                     (unique s) (unique s);
      st_subheader "📋 AI-Powered Data Report";
      st_checkbox ("Generate AI Report for " ++ name file);
      st_subheader "📊 Data Visualizations";
      st_checkbox ("Show Visualization for " ++ name file);
      st_subheader "🔄 Convert & Download";
      st_radio ("Convert " ++ name file ++ " to:") ["CSV"; "Excel"] (name file);
      st_button "Convert";
      st_success "🎉 All Files Processed!"], None).
Proof.
  intros Hl Hwf Hd Hn. unfold main, for_each_file, process_file. rewrite Hl.
  set (l0 := mkLocals (name file) (lower (snd (splitext (name file)))) d).
  assert (Hf : filter_step idle_widgets l0
               = ([st_subheader "📌 Filter Data";
                   st_selectbox ("Select Column to Filter " ++ name file)
                                (columns d);
                   st_multiselect ("Choose values from " ++ label_str (label_of s))
                                  (unique s) (unique s)], Ok tt l0)).
  { apply (filter_step_default idle_widgets l0 (label_of s) s).
    - exact Hwf.
    - simpl. rewrite Hd. reflexivity.
    - simpl. now apply (getitem_hd d s rest).
    - now apply default_in_options_present.
    - reflexivity. }
  unfold body, bind.
  replace (preview_step file l0)
    with ([st_write ("**File Name:** " ++ name file);
           st_write_size (size file);
           st_write "**📈 Data Preview (First 7 Rows):**";
           st_dataframe (head 7 d)], Ok tt l0) by reflexivity.
  replace (summary_step idle_widgets l0)
    with ([st_subheader "🗒️ Data Summary";
           st_checkbox ("Show Summary for " ++ name file)], Ok tt l0)
    by reflexivity.
  replace (clean_step idle_widgets l0)
    with ([st_checkbox ("🧹 Clean & Transform Data for " ++ name file)],
          Ok tt l0) by reflexivity.
  rewrite Hf.
  replace (report_step idle_widgets env l0)
    with ([st_subheader "📋 AI-Powered Data Report";
           st_checkbox ("Generate AI Report for " ++ name file)], Ok tt l0)
    by reflexivity.
  replace (visualization_step idle_widgets l0)
    with ([st_subheader "📊 Data Visualizations";
           st_checkbox ("Show Visualization for " ++ name file)], Ok tt l0)
    by reflexivity.
  replace (convert_step idle_widgets env l0)
    with ([st_subheader "🔄 Convert & Download";
           st_radio ("Convert " ++ name file ++ " to:") ["CSV"; "Excel"]
                    (name file);
           st_button "Convert"], Ok tt l0) by reflexivity.
  cbn [app].
  rewrite put_fresh; [reflexivity | | intros e _ []].
  repeat (constructor; [simpl; intuition discriminate|]). constructor.
Qed.

Lemma idle_pass_witness :
  load sample_env (mkUploadedFile "data.csv" 8 small_csv)
  = inr (Some small_frame)
  /\ wf_frame small_frame
  /\ snd (main idle_widgets sample_env [mkUploadedFile "data.csv" 8 small_csv])
     = None.
Proof.
  split; [reflexivity|]. split; [reflexivity|].
  rewrite (idle_pass sample_env (mkUploadedFile "data.csv" 8 small_csv)
             small_frame (mkSeries (LStr "a") number [Num (Q2Qc 1)])
             [mkSeries (LStr "b") object [Str "x"]]);
    [reflexivity | reflexivity | reflexivity | reflexivity |].
  simpl. intros [H|[]]. discriminate.
Defined.

(** *** Two files in one run *)

Lemma bind_ok {A B : Type} (m : Script A) (k : A -> Script B) (l l' : Locals)
  (out : list event) (b : B) :
  bind m k l = (out, Ok b l') ->
  exists o1 a l1 o2,
    m l = (o1, Ok a l1) /\ k a l1 = (o2, Ok b l') /\ out = o1 ++ o2.
Proof.
  unfold bind. destruct (m l) as [o1 [a l1|e]]; [|discriminate].
  destruct (k a l1) as [o2 r] eqn:Ek. intros H. injection H as <- ->.
  exists o1, a, l1, o2. auto.
Qed.

(** The last step puts the button "Convert" on the page, whatever the
    file and the widgets. *)
Lemma convert_step_button (w : Widgets) (env : Env) (l : Locals) :
  In (st_button "Convert") (fst (convert_step w env l)).
Proof.
  unfold convert_step, ask_radio, ask_button, bind, get, emit, ret.
  cbv beta iota.
  destruct (when _ _ _) as [o r]. destruct r; simpl; auto.
Qed.

Lemma body_ok_button (w : Widgets) (env : Env) (file : UploadedFile)
  (l l' : Locals) (out : list event) :
  body w env file l = (out, Ok tt l') -> In (st_button "Convert") out.
Proof.
  unfold body. intros H.
  do 6 (apply bind_ok in H;
        destruct H as [? [? [? [? [_ [H ->]]]]]];
        apply in_or_app; right).
  match type of H with
  | convert_step _ _ ?l1 = _ => pose proof (convert_step_button w env l1) as Hb
  end.
  rewrite H in Hb. exact Hb.
Qed.

Lemma put_all (out page shown : list event) :
  put page out = (shown, false) -> shown = out.
Proof.
  revert page shown. induction out as [|e out IH]; intros page shown; simpl.
  - now intros [= <-].
  - destruct (clash page e); [discriminate|].
    destruct (put (page ++ [e]) out) as [sh st] eqn:E.
    intros [= <- ->]. f_equal. now apply (IH (page ++ [e])).
Qed.

(** A widget that the page already holds stops the piece of script that
    calls it again. *)
Lemma put_clash (out page : list event) (e : event) :
  In e out -> is_widget e = true -> In e page -> snd (put page out) = true.
Proof.
  revert page. induction out as [|a out IH]; intros page Hin Hw Hp; simpl;
    [contradiction|].
  destruct (clash page a) eqn:Ec; [reflexivity|].
  destruct Hin as [->|Hin].
  - exfalso. unfold clash in Ec. rewrite Hw in Ec. simpl in Ec.
    assert (existsb (event_eqb e) page = true); [|congruence].
    apply existsb_exists. exists e. split; [assumption|].
    now apply event_eqb_eq.
  - specialize (IH (page ++ [a]) Hin Hw (in_or_app _ _ _ (or_introl Hp))).
    destruct (put (page ++ [a]) out). exact IH.
Qed.

Lemma process_file_button (w : Widgets) (env : Env) (page : list event)
  (file : UploadedFile) (d : DataFrame) (out : list event) :
  load env file = inr (Some d) ->
  process_file w env page file = (out, None) ->
  In (st_button "Convert") out.
Proof.
  intros Hl. unfold process_file. rewrite Hl.
  destruct (body w env file _) as [o r] eqn:Eb.
  destruct (put page o) as [shown [|]] eqn:Ep; [discriminate|].
  destruct r as [[] l'|e]; [|discriminate].
  intros [= <-]. apply put_all in Ep. subst shown.
  exact (body_ok_button w env file _ l' o Eb).
Qed.

Lemma process_file_second (w : Widgets) (env : Env) (page : list event)
  (file : UploadedFile) (d : DataFrame) :
  load env file = inr (Some d) ->
  In (st_button "Convert") page ->
  snd (process_file w env page file) <> None.
Proof.
  intros Hl Hp. unfold process_file. rewrite Hl.
  destruct (body w env file _) as [o r] eqn:Eb.
  destruct r as [[] l'|e].
  - pose proof (body_ok_button w env file _ l' o Eb) as Hb.
    pose proof (put_clash o page (st_button "Convert") Hb eq_refl Hp) as Hc.
    destruct (put page o) as [shown st]. simpl in Hc. subst st. discriminate.
  - destruct (put page o) as [shown [|]]; discriminate.
Qed.

Lemma for_each_file_second (w : Widgets) (env : Env) (files : list UploadedFile)
  (page : list event) (file : UploadedFile) (d : DataFrame) :
  In (st_button "Convert") page ->
  In file files -> load env file = inr (Some d) ->
  snd (for_each_file w env page files) <> None.
Proof.
  revert page. induction files as [|f files IH]; intros page Hp Hin Hl;
    [contradiction|].
  simpl. destruct (process_file w env page f) as [out [e|]] eqn:Ef;
    [discriminate|].
  destruct Hin as [->|Hin].
  - exfalso. apply (process_file_second w env page file d Hl Hp).
    now rewrite Ef.
  - specialize (IH (page ++ out) (in_or_app _ _ _ (or_introl Hp)) Hin Hl).
    destruct (for_each_file w env (page ++ out) files). exact IH.
Qed.

(** X20.  A run in which two of the uploaded files are loaded raises,
    whatever the widgets return: the pass of the first one puts the
    button "Convert" on the page, and the call of the same button in the
    pass of the second one raises, if nothing does before.  The closing
    message is not written. *)
Theorem two_files_raise (w : Widgets) (env : Env)
  (l1 l2 l3 : list UploadedFile) (f1 f2 : UploadedFile) (d1 d2 : DataFrame) :
  load env f1 = inr (Some d1) -> load env f2 = inr (Some d2) ->
  exists out e, main w env (l1 ++ f1 :: l2 ++ f2 :: l3) = (out, Some e).
Proof.
  intros H1 H2.
  assert (H : snd (for_each_file w env [] (l1 ++ f1 :: l2 ++ f2 :: l3))
              <> None).
  { rewrite for_each_file_app.
    destruct (for_each_file w env [] l1) as [out [e|]]; simpl; [discriminate|].
    destruct (process_file w env out f1) as [out1 [e|]] eqn:E1;
      [discriminate|].
    pose proof (process_file_button w env out f1 d1 out1 H1 E1) as Hb.
    assert (Hp : In (st_button "Convert") (out ++ out1))
      by (apply in_or_app; now right).
    assert (Hin : In f2 (l2 ++ f2 :: l3))
      by (apply in_or_app; right; now left).
    pose proof (for_each_file_second w env (l2 ++ f2 :: l3) (out ++ out1)
                  f2 d2 Hp Hin H2) as Hs.
    destruct (for_each_file w env (out ++ out1) (l2 ++ f2 :: l3)).
    exact Hs. }
  unfold main.
  destruct (for_each_file w env [] (l1 ++ f1 :: l2 ++ f2 :: l3))
    as [out [e|]]; [|now contradiction H].
  now exists out, e.
Qed.

Lemma two_files_raise_witness :
  load sample_env (mkUploadedFile "a.csv" 8 small_csv) = inr (Some small_frame)
  /\ load sample_env (mkUploadedFile "b.csv" 8 small_csv) = inr (Some small_frame)
  /\ exists out e,
       main idle_widgets sample_env
         ([] ++ mkUploadedFile "a.csv" 8 small_csv
             :: [] ++ mkUploadedFile "b.csv" 8 small_csv :: [])
       = (out, Some e).
Proof.
  split; [reflexivity|]. split; [reflexivity|].
  apply (two_files_raise idle_widgets sample_env [] [] []
           (mkUploadedFile "a.csv" 8 small_csv)
           (mkUploadedFile "b.csv" 8 small_csv) small_frame small_frame);
    reflexivity.
Defined.

(** With two files of different columns the exception is the one of
    the second "Convert" button; with two files of the same first column
    and values, the one of the second multiselect. *)
Lemma two_files_raise_at_convert :
  let other := mkUploadedFile "b.csv" 8
                 ("c,d" ++ String LF "2,y" ++ String LF "") in
  snd (main idle_widgets sample_env
         [mkUploadedFile "a.csv" 8 small_csv; other])
  = Some StreamlitDuplicateElementId
  /\ last (fst (main idle_widgets sample_env
                  [mkUploadedFile "a.csv" 8 small_csv; other]))
          (st_error "")
     = st_radio "Convert b.csv to:" ["CSV"; "Excel"] "b.csv"
  /\ last (fst (main idle_widgets sample_env
                  [mkUploadedFile "a.csv" 8 small_csv;
                   mkUploadedFile "b.csv" 8 small_csv]))
          (st_error "")
     = st_selectbox "Select Column to Filter b.csv" [LStr "a"; LStr "b"].
Proof. repeat split; vm_compute; reflexivity. Qed.
